(** * The school/students update service (src/index.js)

    A shallow embedding of the Express handlers of [src/index.js] and of the
    MongoDB commands they issue against the collection "schools".

    - A document of the collection is a [school]; its embedded array
      [students] holds [student] objects.
    - [mongoose.connection.db.collection("schools")] is a list of schools in
      natural order, the field [schools] of the [server] state.
    - A driver call whose promise is not awaited is a [command] put in the
      field [inflight]; the store applies (or loses) in-flight commands one at
      a time, in any order: the relation [step].
    - A handler is a function from the state to the new state and its [reply].

    The model describes the service once [mongoose.connect] has resolved.
    [put] takes a request body that has the documented shape, an array of
    student objects each carrying a string [studentId]; [put_body] is the
    handler on the body as the JSON parser hands it over, whatever its
    shape. *)

From stdpp Require Import base option list strings gmap relations pretty.

Open Scope string_scope.
Open Scope list_scope.

(** ** Data model *)

(** Scalar field values of the stored JSON objects. *)
Inductive scalar :=
  | Str (s : string)
  | Num (n : Z).

Global Instance scalar_eq_dec : EqDecision scalar.
Proof. solve_decision. Defined.

(** A student object: [{ studentId, ...attrs }]. *)
Record student := Student {
  studentId : string;
  attrs : gmap string scalar
}.

Global Instance student_eq_dec : EqDecision student.
Proof. solve_decision. Defined.

(** A school document: [{ schoolId, students, ...fields }]; [fields] holds
    every other top-level field (name, address, city, ...). *)
Record school := School {
  schoolId : string;
  fields : gmap string scalar;
  students : list student
}.

Global Instance school_eq_dec : EqDecision school.
Proof. solve_decision. Defined.

(** The field the specification calls the version counter. *)
Definition version (d : school) : option scalar := fields d !! "version".

(** ** MongoDB commands *)

(** The driver calls of [src/index.js]:
    [updateOne({schoolId, "students.studentId": k}, {$set: {"students.$": v}})],
    [drop()] and [insertOne(d)]. *)
Inductive command :=
  | UpdateOne (sid : string) (k : string) (v : student)
  | Drop
  | InsertOne (d : school).

(** The query [{schoolId: sid, "students.studentId": k}] selects a document
    whose [schoolId] is [sid] and whose array has an element with key [k]. *)
Definition has_student (k : string) (d : school) : Prop :=
  Exists (λ s, studentId s = k) (students d).

Definition selects (sid k : string) (d : school) : Prop :=
  schoolId d = sid ∧ has_student k d.

Global Instance selects_dec sid k d : Decision (selects sid k d).
Proof. unfold selects, has_student. apply _. Defined.

(** Where [updateOne] writes: the first selected document, and in it the
    position the positional operator [$] stands for, the first array element
    that satisfies the query. *)
Definition target (sid k : string) (c : list school) : option (nat * nat) :=
  '(i, d) ← list_find (selects sid k) c;
  '(j, _) ← list_find (λ s, studentId s = k) (students d);
  Some (i, j).

(** [$set: {"students.j": v}] on one document. *)
Definition set_elem (j : nat) (v : student) (d : school) : school :=
  School (schoolId d) (fields d) (<[j := v]> (students d)).

(** [updateOne]: no selected document, no change (there is no upsert). *)
Definition updateOne (sid k : string) (v : student) (c : list school)
  : list school :=
  match target sid k c with
  | Some (i, j) => alter (set_elem j v) i c
  | None => c
  end.

Definition exec (o : command) (c : list school) : list school :=
  match o with
  | UpdateOne sid k v => updateOne sid k v c
  | Drop => []
  | InsertOne d => c ++ [d]
  end.

(** [findOne({schoolId: sid})]: the first document with that id, or null. *)
Definition findOne (sid : string) (c : list school) : option school :=
  snd <$> list_find (λ d, schoolId d = sid) c.

(** ** The server *)

Record server := Server {
  schools : list school;
  inflight : list command
}.

Inductive js_error := TypeError.

Inductive body :=
  | Text (s : string)
  | Students (l : list student).

Inductive reply :=
  | Sent (b : body)
  | Threw (e : js_error).

(** The commands the loop [for (const student of req.body)] issues. *)
Definition issue (sid : string) (patch : list student) : list command :=
  (λ s, UpdateOne sid (studentId s) s) <$> patch.

(** [app.put("/schools/:schoolId/students")]: one [updateOne] per entry, none
    awaited, then [res.send("Students updated")]. *)
Definition put (sid : string) (patch : list student) (σ : server)
  : server * reply :=
  (Server (schools σ) (inflight σ ++ issue sid patch),
   Sent (Text "Students updated")).

(** [app.get("/schools/:schoolId/students")]: [school.students] throws when
    [findOne] resolved to null. *)
Definition get (sid : string) (σ : server) : reply :=
  match findOne sid (schools σ) with
  | Some d => Sent (Students (students d))
  | None => Threw TypeError
  end.

(** [populateDB]: the seeded school and its 1000 students. *)
Definition seed_student (i : nat) : student :=
  Student ("student" +:+ pretty i)
    {[ "name" := Str ("Student " +:+ pretty i);
       "age" := Num 20;
       "email" := Str ("student" +:+ pretty i +:+ "@example.com") ]}.

Definition seed_school : school :=
  School "1"
    {[ "name" := Str "School 1";
       "address" := Str "123 Main St";
       "city" := Str "New York" ]}
    (seed_student <$> seq 0 1000).

Definition populateDB (σ : server) : server :=
  Server (schools σ) (inflight σ ++ [Drop; InsertOne seed_school]).

(** ** The store at work *)

(** One in-flight command is applied to the collection. *)
Inductive deliver : server → server → Prop :=
  | deliver_at σ i o :
      inflight σ !! i = Some o →
      deliver σ (Server (exec o (schools σ)) (delete i (inflight σ))).

(** One in-flight command fails; its rejected promise is nobody's. This is
    the side of the store only: the command leaves the collection alone. An
    unhandled rejection also ends the Node process, so what a handler
    replies is stated for runs of [deliver] steps. *)
Inductive lose : server → server → Prop :=
  | lose_at σ i o :
      inflight σ !! i = Some o →
      lose σ (Server (schools σ) (delete i (inflight σ))).

Definition step (σ σ' : server) : Prop := deliver σ σ' ∨ lose σ σ'.

(** The commands applied in the order they were issued. *)
Definition drain (l : list command) (c : list school) : list school :=
  foldl (λ c o, exec o c) c l.

(** A PUT whose updates are applied in issue order with no other writer. *)
Definition apply_in_order (sid : string) (patch : list student)
  (c : list school) : list school :=
  drain (issue sid patch) c.

(** ** What a reader sees of the collection *)

(** The keys of the embedded array, in array order. *)
Definition keys (d : school) : list string := studentId <$> students d.

(** A document without the attributes of its students. *)
Definition outline (d : school) : string * gmap string scalar * list string :=
  (schoolId d, fields d, keys d).

Definition shape (c : list school) :
  list (string * gmap string scalar * list string) := outline <$> c.

(** The [j]-th student of the [i]-th document. *)
Definition child (c : list school) (i j : nat) : option student :=
  d ← c !! i; students d !! j.

(** A command as [put] issues them: its payload carries the key it asks for. *)
Definition put_command (o : command) : Prop :=
  match o with
  | UpdateOne _ k v => k = studentId v
  | _ => False
  end.

(** The command writes at position [(i, j)] of the collection. *)
Definition hits (c : list school) (i j : nat) (o : command) : Prop :=
  match o with
  | UpdateOne sid k _ => target sid k c = Some (i, j)
  | _ => False
  end.

Global Instance hits_dec c i j o : Decision (hits c i j o).
Proof. destruct o; simpl; apply _. Defined.

Definition payload (o : command) : option student :=
  match o with
  | UpdateOne _ _ v => Some v
  | _ => None
  end.

(** The last command of a list that writes at [(i, j)]. *)
Definition last_hit (c : list school) (i j : nat) (l : list command)
  : option command :=
  snd <$> list_find (hits c i j) (reverse l).

(** [target] read off the shape of the collection. *)
Definition target_of_shape (sid k : string)
    (sh : list (string * gmap string scalar * list string))
  : option (nat * nat) :=
  '(i, o) ← list_find (λ o, o.1.1 = sid ∧ Exists (λ x, x = k) o.2) sh;
  '(j, _) ← list_find (λ x, x = k) o.2;
  Some (i, j).

(** What every state of a run that started with in-flight [put] commands
    [l] on the collection [c] satisfies. *)
Definition run_inv (c : list school) (l : list command) (σ : server) : Prop :=
  inflight σ ⊆ l ∧
  shape (schools σ) = shape c ∧
  ∀ i j, child (schools σ) i j = child c i j ∨
         ∃ o, o ∈ l ∧ hits c i j o ∧ child (schools σ) i j = payload o.

(** A step either applies ([true]) or loses ([false]) the [n]-th command. *)
Definition after (b : bool) (n : nat) (o : command) (σ : server) : server :=
  Server (if b then exec o (schools σ) else schools σ)
         (delete n (inflight σ)).

(** ** The example of the specification *)

Definition named (k n : string) : student := Student k {[ "name" := Str n ]}.

Definition example_school : school :=
  School "1" {[ "version" := Num 5 ]} [named "s0" "A"; named "s1" "B"].

Definition example_patch : list student := [named "s0" "A2"; named "sX" "Z"].

Definition example_server : server := Server [example_school] [].

(** ** What a PUT amounts to for one student *)

(** The last entry of the patch set that has the key of [s], or [s] itself
    when there is none. *)
Definition patched (patch : list student) (s : student) : student :=
  match list_find (λ e, studentId e = studentId s) (reverse patch) with
  | Some (_, e) => e
  | None => s
  end.

(** The filter of an update: the school id and the key it asks for. *)
Definition filter_of (o : command) : option (string * string) :=
  match o with
  | UpdateOne sid k _ => Some (sid, k)
  | _ => None
  end.

(** ** The other update strategies of the article (src/unnamed/part_000)

    The article shows the PUT handler written in other ways. Each of them
    awaits its driver calls, so the reply follows the update; the models
    give the collection once the store has applied the calls, with no other
    writer at work, and the reply the handler then sends. *)

(** The two handlers that update with a pipeline splice the body into an
    aggregation expression. There a string that starts with [$] is a field
    path or a variable, not a text, and a field name that is empty, starts
    with [$] or has a dot is no name of a literal object. [put_concat] and
    [put_merge] are those handlers on the bodies the pipeline reads as
    literals, [literal_body]. *)
Definition dollar (s : string) : bool := String.prefix "$" s.

Definition dotted (s : string) : bool :=
  match String.index 0 "." s with
  | Some _ => true
  | None => false
  end.

Definition field_name (f : string) : Prop :=
  f ≠ "" ∧ dollar f = false ∧ dotted f = false.

Definition literal_scalar (x : scalar) : Prop :=
  match x with
  | Str s => dollar s = false
  | Num _ => True
  end.

Global Instance literal_scalar_dec x : Decision (literal_scalar x).
Proof. destruct x; simpl; apply _. Defined.

Definition literal_student (v : student) : Prop :=
  dollar (studentId v) = false ∧
  map_Forall (λ f x, field_name f ∧ literal_scalar x) (attrs v).

Global Instance literal_student_dec v : Decision (literal_student v).
Proof. unfold literal_student, field_name. apply _. Defined.

Definition literal_body (patch : list student) : Prop :=
  Forall literal_student patch.

(** [updateOne({schoolId: sid}, [{$set: {students: ...}}])]: the pipeline
    recomputes the array of the first school with the id. *)
Definition update_first (sid : string) (f : list student → list student)
  (c : list school) : list school :=
  match list_find (λ d, schoolId d = sid) c with
  | Some (i, _) =>
      alter (λ d, School (schoolId d) (fields d) (f (students d))) i c
  | None => c
  end.

(** "Filter and concat", on a literal body: [$concatArrays] of the stored
    students whose key is [$not] [$in] the keys of the body, and of the
    body. *)
Definition concat_students (patch l : list student) : list student :=
  filter (λ s, studentId s ∉ studentId <$> patch) l ++ patch.

Definition put_concat (sid : string) (patch : list student)
  (c : list school) : list school * reply :=
  (update_first sid (concat_students patch) c,
   Sent (Text "Students updated")).

(** "$mergeObjects", on a literal body: [$map] over the stored students;
    each is merged with
    the first entry of the body with its key ([$arrayElemAt] 0 of the
    [$filter]), the fields of the entry taking precedence; with no such
    entry the student stays. *)
Definition merge_student (patch : list student) (s : student) : student :=
  match list_find (λ u, studentId u = studentId s) patch with
  | Some (_, u) => Student (studentId u) (attrs u ∪ attrs s)
  | None => s
  end.

Definition put_merge (sid : string) (patch : list student)
  (c : list school) : list school * reply :=
  (update_first sid (fmap (merge_student patch)) c,
   Sent (Text "Students updated")).

(** "For-loop": an awaited
    [updateOne({"students.studentId": k}, {$set: {"students.$": v}})] per
    entry; the filter does not name the school. *)
Definition target_any (k : string) (c : list school) : option (nat * nat) :=
  '(i, d) ← list_find (has_student k) c;
  '(j, _) ← list_find (λ s, studentId s = k) (students d);
  Some (i, j).

Definition update_by_key (k : string) (v : student) (c : list school)
  : list school :=
  match target_any k c with
  | Some (i, j) => alter (set_elem j v) i c
  | None => c
  end.

Definition put_for_loop (patch : list student) (c : list school)
  : list school * reply :=
  (foldl (λ c s, update_by_key (studentId s) s c) c patch,
   Sent (Text "Students updated")).

(** ** The request body as the parser hands it over *)











(** ** The model at work on the examples *)

(** [deliver_nth n o]: the next step of a concrete run applies the [n]-th
    in-flight command, which is [o]. *)
Ltac deliver_nth n o :=
  eapply rtc_l; [apply (deliver_at _ n o); reflexivity|].

(** The example patch set applied in issue order. *)

Example example_in_order :
  apply_in_order "1" example_patch [example_school]
  = [School "1" {[ "version" := Num 5 ]} [named "s0" "A2"; named "s1" "B"]].
Proof. vm_compute. reflexivity. Qed.

(** The loop body of [populateDB] at [i = 7]. *)
Example seed_student_7 : seed_student 7 = Student "student7"
    {[ "name" := Str "Student 7"; "age" := Num 20;
       "email" := Str "student7@example.com" ]}.
Proof. vm_compute. reflexivity. Qed.

(** [populateDB] awaits neither [drop] nor [insertOne]: applied in issue
    order they leave the seeded school alone in the collection, applied the
    other way round they leave the collection empty. *)
Example populateDB_in_order c :
  drain (inflight (populateDB (Server c []))) c = [seed_school].
Proof. reflexivity. Qed.

Example populateDB_insert_first c :
  rtc deliver (populateDB (Server c [])) (Server [] []).
Proof.
  deliver_nth 1 (InsertOne seed_school). deliver_nth 0 Drop. apply rtc_refl.
Qed.

(** ** Where an update lands *)

Lemma target_Some sid k c i j :
  target sid k c = Some (i, j) →
  ∃ d s, c !! i = Some d ∧ schoolId d = sid ∧
         students d !! j = Some s ∧ studentId s = k.
Proof.
  unfold target. intros H.
  destruct (list_find (selects sid k) c) as [[i' d]|] eqn:Hd; simplify_eq/=.
  destruct (list_find _ (students d)) as [[j' s]|] eqn:Hs; simplify_eq/=.
  apply list_find_Some in Hd as (Hi & [Hsid _] & _).
  apply list_find_Some in Hs as (Hj & Hk & _).
  eauto 10.
Qed.

Lemma target_None sid k c :
  target sid k c = None ↔ Forall (λ d, ¬ selects sid k d) c.
Proof.
  rewrite <-list_find_None. unfold target. split.
  - destruct (list_find (selects sid k) c) as [[i d]|] eqn:Hd; [|done].
    simpl. apply list_find_Some in Hd as (_ & [_ Hex] & _).
    destruct (list_find _ (students d)) as [[j s]|] eqn:Hs; [done|].
    apply list_find_None in Hs. unfold has_student in Hex.
    apply Exists_exists in Hex as (s & Hin & Hk).
    rewrite Forall_forall in Hs. by destruct (Hs s Hin).
  - by intros ->.
Qed.

Lemma target_shape sid k c : target sid k c = target_of_shape sid k (shape c).
Proof.
  unfold target, target_of_shape, shape.
  rewrite list_find_fmap.
  rewrite (list_find_ext (selects sid k)
             ((λ o, o.1.1 = sid ∧ Exists (λ x, x = k) o.2) ∘ outline)).
  2:{ intros d. unfold selects, has_student, outline, keys. simpl.
      by rewrite Exists_fmap. }
  destruct (list_find _ c) as [[i d]|]; [|done]. simpl.
  unfold keys. rewrite list_find_fmap.
  by destruct (list_find _ (students d)) as [[j s]|].
Qed.

Lemma target_same_shape sid k c c' :
  shape c = shape c' → target sid k c = target sid k c'.
Proof. intros H. by rewrite !target_shape, H. Qed.

(** ** One update *)

Lemma child_Some c i j s :
  child c i j = Some s ↔ ∃ d, c !! i = Some d ∧ students d !! j = Some s.
Proof.
  unfold child. destruct (c !! i) as [d|]; simpl.
  - split; [by exists d|]. by intros (? & [= <-] & ?).
  - split; [done|]. by intros (? & ? & ?).
Qed.

(** The update writes its payload at its target and nowhere else. *)
Lemma updateOne_child sid k v c i j :
  child (updateOne sid k v c) i j
  = if decide (target sid k c = Some (i, j)) then Some v else child c i j.
Proof.
  unfold updateOne.
  destruct (target sid k c) as [[i0 j0]|] eqn:Ht; [|by case_decide].
  apply target_Some in Ht as (d & s & Hd & _ & Hs & _).
  unfold child. rewrite list_lookup_alter.
  destruct (decide (Some (i0, j0) = Some (i, j))) as [Hij|Hij]; simplify_eq.
  - rewrite decide_True by done. rewrite Hd. simpl.
    apply list_lookup_insert_eq. by eapply lookup_lt_Some.
  - destruct (decide (i0 = i)) as [->|]; [|done].
    rewrite Hd. simpl. rewrite list_lookup_insert_ne; [done|congruence].
Qed.

(** An update whose payload has the key it asks for keeps the shape. *)
Lemma updateOne_shape sid v c :
  shape (updateOne sid (studentId v) v c) = shape c.
Proof.
  unfold updateOne.
  destruct (target sid (studentId v) c) as [[i j]|] eqn:Ht; [|done].
  apply target_Some in Ht as (d & s & Hd & _ & Hs & Hk).
  unfold shape. apply list_eq. intros i'.
  rewrite !list_lookup_fmap, list_lookup_alter.
  case_decide; [|done]. subst i'. rewrite Hd. simpl. f_equal.
  unfold outline, keys, set_elem. simpl. f_equal.
  rewrite list_fmap_insert. apply list_insert_id.
  by rewrite list_lookup_fmap, Hs, <-Hk.
Qed.

Lemma exec_shape o c : put_command o → shape (exec o c) = shape c.
Proof. destruct o; simpl; [|done..]. intros ->. apply updateOne_shape. Qed.

Lemma exec_child o c i j :
  put_command o →
  child (exec o c) i j
  = if decide (hits c i j o) then payload o else child c i j.
Proof.
  destruct o as [sid k v| |]; simpl; [|done..]. intros _.
  rewrite updateOne_child. by repeat case_decide.
Qed.

Lemma hits_same_shape c c' i j o :
  shape c = shape c' → hits c i j o ↔ hits c' i j o.
Proof.
  intros H. destruct o; simpl; [|done..]. by rewrite (target_same_shape _ _ c c').
Qed.

(** Two collections of one shape with the same students are equal. *)
Lemma store_ext c c' :
  shape c = shape c' → (∀ i j, child c i j = child c' i j) → c = c'.
Proof.
  intros Hsh Hch. apply list_eq. intros i.
  assert (outline <$> c !! i = outline <$> c' !! i) as Hi.
  { rewrite <-!list_lookup_fmap. by fold (shape c) (shape c'); rewrite Hsh. }
  destruct (c !! i) as [[a f l]|] eqn:Hc, (c' !! i) as [[a' f' l']|] eqn:Hc';
    try done.
  injection Hi as -> -> _. do 2 f_equal.
  apply list_eq. intros j. specialize (Hch i j).
  unfold child in Hch. by rewrite Hc, Hc' in Hch.
Qed.

(** ** Updates applied in issue order *)

Lemma drain_app l1 l2 c : drain (l1 ++ l2) c = drain l2 (drain l1 c).
Proof. unfold drain. apply foldl_app. Qed.

Lemma drain_snoc l o c : drain (l ++ [o]) c = exec o (drain l c).
Proof. by rewrite drain_app. Qed.

Lemma drain_shape l c : Forall put_command l → shape (drain l c) = shape c.
Proof.
  intros Hl. revert c. induction Hl as [|o l Ho _ IH]; intros c; [done|].
  simpl. rewrite IH. by apply exec_shape.
Qed.

Lemma last_hit_snoc c i j l o :
  last_hit c i j (l ++ [o])
  = if decide (hits c i j o) then Some o else last_hit c i j l.
Proof.
  unfold last_hit. rewrite reverse_snoc. simpl.
  case_decide; [done|]. by destruct (list_find _ (reverse l)) as [[]|].
Qed.

Lemma last_hit_same_shape c c' i j l :
  shape c = shape c' → last_hit c i j l = last_hit c' i j l.
Proof.
  intros H. unfold last_hit. f_equal. apply list_find_ext.
  intros o. by apply hits_same_shape.
Qed.

(** After the updates, a position holds the payload of the last update that
    targets it, or what it held before when none does. *)
Lemma drain_child l c i j :
  Forall put_command l →
  child (drain l c) i j
  = match last_hit c i j l with
    | Some o => payload o
    | None => child c i j
    end.
Proof.
  induction l as [|o l IH] using rev_ind; intros Hl; [done|].
  rewrite Forall_app, Forall_singleton in Hl. destruct Hl as [Hl Ho].
  rewrite drain_snoc, last_hit_snoc, exec_child by done.
  rewrite (decide_ext _ (hits c i j o)).
  2:{ apply hits_same_shape. by apply drain_shape. }
  case_decide; [done|]. by apply IH.
Qed.

Lemma issue_put_command sid patch : Forall put_command (issue sid patch).
Proof. unfold issue. apply Forall_fmap. by apply Forall_true. Qed.

Lemma last_hit_None c i j l :
  last_hit c i j l = None ↔ Forall (λ o, ¬ hits c i j o) l.
Proof.
  unfold last_hit. rewrite fmap_None, list_find_None.
  by rewrite Forall_reverse.
Qed.

Lemma last_hit_Some c i j l o :
  last_hit c i j l = Some o → o ∈ l ∧ hits c i j o.
Proof.
  unfold last_hit. intros ([n o'] & Hf & ->)%fmap_Some.
  apply list_find_Some in Hf as (Hn & Ho & _). split; [|done].
  apply elem_of_reverse. by eapply list_elem_of_lookup_2.
Qed.

Lemma last_hit_middle c i j l o l' :
  hits c i j o → Forall (λ o', ¬ hits c i j o') l' →
  last_hit c i j (l ++ o :: l') = Some o.
Proof.
  intros Ho. induction l' as [|x l' IH] using rev_ind; intros Hl'.
  - by rewrite last_hit_snoc, decide_True.
  - rewrite Forall_app, Forall_singleton in Hl'. destruct Hl' as [Hl' Hx].
    rewrite app_comm_cons, app_assoc, last_hit_snoc.
    rewrite decide_False by done. by apply IH.
Qed.

(** Two updates that write at one position ask for the same key. *)
Lemma hits_same_key c i j sid k v sid' k' v' :
  hits c i j (UpdateOne sid k v) → hits c i j (UpdateOne sid' k' v') →
  sid = sid' ∧ k = k'.
Proof.
  simpl. intros (d & s & Hd & Hsid & Hs & Hk)%target_Some
    (d' & s' & Hd' & Hsid' & Hs' & Hk')%target_Some.
  simplify_eq. done.
Qed.

(** ** Runs of the store *)

Lemma deliver_step σ σ' : deliver σ σ' → step σ σ'.
Proof. by left. Qed.

Lemma rtc_deliver_step σ σ' : rtc deliver σ σ' → rtc step σ σ'.
Proof. apply rtc_subrel. intros ??. apply deliver_step. Qed.

(** Issue order is one of the runs. *)
Lemma drain_run l c : rtc deliver (Server c l) (Server (drain l c) []).
Proof.
  revert c. induction l as [|o l IH]; intros c; [done|].
  eapply rtc_l; [|apply IH].
  by apply (deliver_at (Server c (o :: l)) 0 o).
Qed.

Lemma step_run_inv c l σ σ' :
  Forall put_command l → run_inv c l σ → step σ σ' → run_inv c l σ'.
Proof.
  intros Hl (Hsub & Hsh & Hch) Hstep.
  assert (∀ i, inflight σ ⊆ l → delete i (inflight σ) ⊆ l) as Hdel.
  { intros i H. etrans; [apply list_subseteq_delete|done]. }
  destruct Hstep as [Hs|Hs]; destruct Hs as [σ n o Ho]; simpl in *.
  2:{ split_and!; simpl; auto. }
  assert (o ∈ l) as Hin by (apply Hsub; by eapply list_elem_of_lookup_2).
  assert (put_command o) as Hput by (by eapply Forall_forall in Hl).
  split_and!; simpl; auto.
  - by rewrite exec_shape.
  - intros i j. rewrite exec_child by done. case_decide as Hh; [|done].
    right. exists o. split_and!; [done| |done].
    by apply (hits_same_shape _ _ i j o Hsh).
Qed.

Lemma rtc_run_inv c l σ' :
  Forall put_command l → rtc step (Server c l) σ' → run_inv c l σ'.
Proof.
  intros Hl. revert σ'. apply rtc_ind_r.
  - split_and!; simpl; auto.
  - intros σ1 σ2 _ Hstep Hinv. by eapply step_run_inv.
Qed.

Lemma shape_lookup c c' i d :
  shape c = shape c' → c !! i = Some d →
  ∃ d', c' !! i = Some d' ∧ outline d' = outline d.
Proof.
  intros Hsh Hd.
  assert (shape c' !! i = Some (outline d)) as H.
  { rewrite <-Hsh. unfold shape. by rewrite list_lookup_fmap, Hd. }
  unfold shape in H. rewrite list_lookup_fmap in H.
  destruct (c' !! i) as [d'|] eqn:Hd'; [|done].
  change (Some (outline d') = Some (outline d)) in H.
  exists d'. split; [done|congruence].
Qed.

Lemma shape_fields (c c' : list school) :
  shape c = shape c' → fields <$> c = fields <$> c'.
Proof.
  intros H. apply (f_equal (fmap (λ o, o.1.2))) in H.
  unfold shape in H. by rewrite <-!list_fmap_compose in H.
Qed.

Lemma fields_version (c c' : list school) :
  fields <$> c = fields <$> c' → version <$> c = version <$> c'.
Proof.
  intros H. apply (f_equal (fmap (λ f : gmap string scalar, f !! "version"))) in H.
  by rewrite <-!list_fmap_compose in H.
Qed.

Lemma elem_of_issue o sid patch :
  o ∈ issue sid patch ↔ ∃ e, e ∈ patch ∧ o = UpdateOne sid (studentId e) e.
Proof.
  unfold issue. rewrite list_elem_of_fmap.
  split; intros (e & H1 & H2); by exists e.
Qed.

(** An issued update only writes over a student of the addressed school that
    carries one of the keys of the patch set. *)
Lemma hits_issue c sid patch o i j d s :
  o ∈ issue sid patch → hits c i j o →
  c !! i = Some d → students d !! j = Some s →
  schoolId d = sid ∧ studentId s ∈ studentId <$> patch.
Proof.
  intros (e & He & ->)%elem_of_issue Hh Hd Hs. simpl in Hh.
  apply target_Some in Hh as (d0 & s0 & Hd0 & Hsid & Hs0 & Hk).
  simplify_eq. split; [done|]. rewrite Hk. by apply list_elem_of_fmap_2.
Qed.

(** ** Order and length *)

(** C4. Order and length preservation: in every state reached after a PUT
    (updates pending, applied in any order, or lost), the collection has the
    same documents, and every children sequence has the same length and the
    same keys at the same positions as before; a child of another school, or
    whose key is not a key of the patch set, is unchanged. *)
Theorem put_preserves_order_and_length σ sid patch σ' :
  inflight σ = [] →
  rtc step (put sid patch σ).1 σ' →
  length (schools σ') = length (schools σ) ∧
  ∀ i d, schools σ !! i = Some d →
    ∃ d', schools σ' !! i = Some d' ∧
      schoolId d' = schoolId d ∧
      length (students d') = length (students d) ∧
      keys d' = keys d ∧
      ∀ j s, students d !! j = Some s →
        schoolId d ≠ sid ∨ studentId s ∉ studentId <$> patch →
        students d' !! j = Some s.
Proof.
  destruct σ as [c l]. simpl. intros -> Hrun.
  apply rtc_run_inv in Hrun as (_ & Hsh & Hch); [|apply issue_put_command].
  split.
  { apply (f_equal length) in Hsh. unfold shape in Hsh.
    by rewrite !length_fmap in Hsh. }
  intros i d Hd.
  destruct (shape_lookup c (schools σ') i d) as (d' & Hd' & Ho); [done..|].
  unfold outline in Ho. injection Ho as Hsid _ Hkeys.
  exists d'. split_and!; [done..| |done|].
  { apply (f_equal length) in Hkeys. unfold keys in Hkeys.
    by rewrite !length_fmap in Hkeys. }
  intros j s Hs Hout.
  destruct (Hch i j) as [Heq|(o & Hin & Hh & _)].
  - unfold child in Heq. rewrite Hd, Hd' in Heq. simpl in Heq. congruence.
  - destruct (hits_issue c sid patch o i j d s) as [? ?]; [done..|].
    by destruct Hout.
Qed.

Lemma put_preserves_order_and_length_witness :
  let σ := Server [example_school] [] in
  let σ' := Server [School "1" {[ "version" := Num 5 ]}
                      [named "s0" "A2"; named "s1" "B"]]
                   (issue "1" [named "sX" "Z"]) in
  inflight σ = [] ∧ rtc step (put "1" example_patch σ).1 σ' ∧
  length (schools σ') = length (schools σ) ∧
  ∀ i d, schools σ !! i = Some d →
    ∃ d', schools σ' !! i = Some d' ∧
      schoolId d' = schoolId d ∧
      length (students d') = length (students d) ∧
      keys d' = keys d ∧
      ∀ j s, students d !! j = Some s →
        schoolId d ≠ "1" ∨ studentId s ∉ studentId <$> example_patch →
        students d' !! j = Some s.
Proof.
  intros σ σ'.
  assert (rtc step (put "1" example_patch σ).1 σ') as Hrun.
  { apply rtc_once. left.
    apply (deliver_at (put "1" example_patch σ).1 0
             (UpdateOne "1" "s0" (named "s0" "A2"))).
    reflexivity. }
  split; [reflexivity|]. split; [exact Hrun|].
  apply (put_preserves_order_and_length σ "1" example_patch σ');
    [reflexivity|exact Hrun].
Defined.

(** ** The handlers' replies *)







Lemma findOne_None sid c :
  findOne sid c = None ↔ Forall (λ d, schoolId d ≠ sid) c.
Proof. unfold findOne. by rewrite fmap_None, list_find_None. Qed.

(** C10. Read endpoint on an absent parent: when no stored school has the
    requested id, [findOne] resolves to null and the handler throws a
    TypeError; it sends nothing. *)
Theorem get_absent_parent_throws σ sid :
  Forall (λ d, schoolId d ≠ sid) (schools σ) →
  findOne sid (schools σ) = None ∧
  get sid σ = Threw TypeError ∧
  ∀ b, get sid σ ≠ Sent b.
Proof.
  intros H%findOne_None. unfold get. rewrite H. by split_and!.
Qed.

Lemma get_absent_parent_throws_witness :
  Forall (λ d, schoolId d ≠ "2") (schools example_server) ∧
  findOne "2" (schools example_server) = None ∧
  get "2" example_server = Threw TypeError ∧
  ∀ b, get "2" example_server ≠ Sent b.
Proof.
  assert (Forall (λ d, schoolId d ≠ "2") (schools example_server)) as H.
  { repeat constructor. simpl. discriminate. }
  split; [exact H|]. exact (get_absent_parent_throws example_server "2" H).
Defined.

(** ** Updates that match nothing *)

Lemma updateOne_unselected sid k v c :
  Forall (λ d, ¬ selects sid k d) c → updateOne sid k v c = c.
Proof. intros H%target_None. unfold updateOne. by rewrite H. Qed.

Lemma absent_parent_unselected sid k c :
  Forall (λ d, schoolId d ≠ sid) c → Forall (λ d, ¬ selects sid k d) c.
Proof. intros H. eapply Forall_impl; [exact H|]. intros d Hd [? _]. done. Qed.

(** A run whose in-flight commands all leave the collection alone. *)
Lemma rtc_step_idle c l σ' :
  Forall (λ o, exec o c = c) l →
  rtc step (Server c l) σ' → schools σ' = c.
Proof.
  intros Hl Hrun.
  enough (schools σ' = c ∧ inflight σ' ⊆ l) as [? _] by done.
  revert σ' Hrun. apply rtc_ind_r; [done|].
  intros σ1 σ2 _ Hstep [Hc Hsub].
  destruct Hstep as [Hs|Hs]; destruct Hs as [σ1 n o Ho]; simpl in *.
  - split; [|etrans; [apply list_subseteq_delete|done]].
    rewrite Hc. eapply Forall_forall in Hl; [done|].
    apply Hsub. by eapply list_elem_of_lookup_2.
  - split; [done|]. etrans; [apply list_subseteq_delete|done].
Qed.

(** C3, as the code has it. Absent parent: when no stored school has the
    requested id, the PUT handler still replies "Students updated", not an
    error, and none of the updates it issued ever changes the collection. *)
Theorem put_absent_parent σ sid patch σ' :
  inflight σ = [] →
  findOne sid (schools σ) = None →
  rtc step (put sid patch σ).1 σ' →
  (put sid patch σ).2 = Sent (Text "Students updated") ∧
  schools σ' = schools σ.
Proof.
  destruct σ as [c l]. simpl. intros -> Habs%findOne_None Hrun.
  split; [done|].
  eapply rtc_step_idle; [|done].
  apply Forall_forall. intros o (e & _ & ->)%elem_of_issue. simpl.
  by apply updateOne_unselected, absent_parent_unselected.
Qed.

Lemma put_absent_parent_witness :
  let σ' := Server [example_school] (issue "2" [named "sX" "Z"]) in
  inflight example_server = [] ∧
  findOne "2" (schools example_server) = None ∧
  rtc step (put "2" example_patch example_server).1 σ' ∧
  (put "2" example_patch example_server).2 = Sent (Text "Students updated") ∧
  schools σ' = schools example_server.
Proof.
  intros σ'.
  assert (rtc step (put "2" example_patch example_server).1 σ') as Hrun.
  { apply rtc_once. left.
    apply (deliver_at (put "2" example_patch example_server).1 0
             (UpdateOne "2" "s0" (named "s0" "A2"))).
    reflexivity. }
  split; [reflexivity|]. split; [reflexivity|]. split; [exact Hrun|].
  apply (put_absent_parent example_server "2" example_patch σ');
    [reflexivity|reflexivity|exact Hrun].
Defined.

(** The claim of C3 fails on the code: school "2" is not stored, yet the PUT
    handler replies with its success text and throws nothing. *)
Lemma put_absent_parent_succeeds :
  findOne "2" (schools example_server) = None ∧
  (put "2" example_patch example_server).2 = Sent (Text "Students updated") ∧
  ¬ ∃ e, (put "2" example_patch example_server).2 = Threw e.
Proof. split_and!; [reflexivity..|]. intros [e He]. discriminate He. Qed.

(** ** Picking an in-flight command *)

Lemma delete_app_lt {A} (l1 l2 : list A) n :
  n < length l1 → delete n (l1 ++ l2) = delete n l1 ++ l2.
Proof.
  revert n. induction l1 as [|x l1 IH]; intros [|n] Hn; simpl in *;
    try lia; [done|].
  f_equal. apply IH. lia.
Qed.

Lemma delete_app_ge {A} (l1 l2 : list A) m :
  delete (length l1 + m) (l1 ++ l2) = l1 ++ delete m l2.
Proof. induction l1 as [|x l1 IH]; simpl; [done|]. by f_equal. Qed.

Lemma step_at b σ n o : inflight σ !! n = Some o → step σ (after b n o σ).
Proof.
  intros H. destruct b; [left; exact (deliver_at σ n o H)|].
  right. exact (lose_at σ n o H).
Qed.

Lemma step_inv σ σ' :
  step σ σ' → ∃ b n o, inflight σ !! n = Some o ∧ σ' = after b n o σ.
Proof.
  intros [Hs|Hs]; destruct Hs as [σ n o Ho];
    [exists true|exists false]; by exists n, o.
Qed.

(** A command that changes no collection of the shape of [c0] can be taken
    out of the in-flight list: every run with it is a run without it. *)
Lemma skip_forward c0 e σ1 σ1' :
  (∀ c', shape c' = shape c0 → exec e c' = c') →
  rtc step σ1 σ1' →
  ∀ l1 l2, inflight σ1 = l1 ++ e :: l2 →
    Forall put_command (l1 ++ l2) →
    shape (schools σ1) = shape c0 →
    rtc step (Server (schools σ1) (l1 ++ l2)) σ1' ∨
    ∃ l1' l2', inflight σ1' = l1' ++ e :: l2' ∧
      rtc step (Server (schools σ1) (l1 ++ l2))
               (Server (schools σ1') (l1' ++ l2')).
Proof.
  intros Hidle. induction 1 as [σ|σ σ2 σ3 Hstep Hrun IH];
    intros l1 l2 Hl Hput Hsh.
  { right. by exists l1, l2. }
  apply step_inv in Hstep as (b & n & o & Ho & ->).
  rewrite Hl in Ho.
  destruct (decide (n < length l1)) as [Hlt|Hge].
  - rewrite lookup_app_l in Ho by done.
    assert (put_command o) as Hpo.
    { eapply Forall_forall; [exact Hput|].
      apply elem_of_app. left. by eapply list_elem_of_lookup_2. }
    assert (step (Server (schools σ) (l1 ++ l2))
              (Server (schools (after b n o σ)) (delete n l1 ++ l2))) as Hst.
    { rewrite <-delete_app_lt by done.
      apply (step_at b (Server (schools σ) (l1 ++ l2)) n o).
      simpl. by rewrite lookup_app_l. }
    destruct (IH (delete n l1) l2) as [Hr|(l1' & l2' & ? & Hr)].
    + unfold after. simpl. rewrite Hl. by apply delete_app_lt.
    + rewrite Forall_app in Hput |- *. destruct Hput as [H1 H2].
      split; [by apply Forall_delete|done].
    + unfold after. simpl. destruct b; [|done]. by rewrite exec_shape.
    + left. by eapply rtc_l.
    + right. exists l1', l2'. split; [done|]. by eapply rtc_l.
  - destruct (decide (n = length l1)) as [->|Hne].
    + rewrite list_lookup_middle in Ho by done. injection Ho as <-.
      left. unfold after in Hrun. rewrite Hl, delete_middle in Hrun.
      destruct b; [|done]. by rewrite Hidle in Hrun.
    + assert (∃ m, n = length l1 + S m) as [m ->] by (exists (n - length l1 - 1); lia).
      rewrite lookup_app_r in Ho by lia.
      replace (length l1 + S m - length l1) with (S m) in Ho by lia.
      simpl in Ho.
      assert (put_command o) as Hpo.
      { eapply Forall_forall; [exact Hput|].
        apply elem_of_app. right. by eapply list_elem_of_lookup_2. }
      assert (step (Server (schools σ) (l1 ++ l2))
                (Server (schools (after b (length l1 + S m) o σ))
                        (l1 ++ delete m l2))) as Hst.
      { rewrite <-delete_app_ge.
        apply (step_at b (Server (schools σ) (l1 ++ l2)) (length l1 + m) o).
        simpl. rewrite lookup_app_r by lia.
        by replace (length l1 + m - length l1) with m by lia. }
      destruct (IH l1 (delete m l2)) as [Hr|(l1' & l2' & ? & Hr)].
      * unfold after. simpl. rewrite Hl.
        by rewrite (delete_app_ge l1 (e :: l2) (S m)).
      * rewrite Forall_app in Hput |- *. destruct Hput as [H1 H2].
        split; [done|by apply Forall_delete].
      * unfold after. simpl. destruct b; [|done]. by rewrite exec_shape.
      * left. by eapply rtc_l.
      * right. exists l1', l2'. split; [done|]. by eapply rtc_l.
Qed.

Lemma unmatched_target c sid k :
  (∀ d, d ∈ c → schoolId d = sid → k ∉ keys d) → target sid k c = None.
Proof.
  intros H. apply target_None, Forall_forall. intros d Hd [Hsid Hex].
  apply (H d Hd Hsid). unfold keys. unfold has_student in Hex.
  apply Exists_exists in Hex as (s & Hs & <-). by apply list_elem_of_fmap_2.
Qed.

Lemma idle_on_shape c0 sid k v :
  target sid k c0 = None →
  ∀ c', shape c' = shape c0 → exec (UpdateOne sid k v) c' = c'.
Proof.
  intros H c' Hsh. simpl. unfold updateOne.
  by rewrite (target_same_shape sid k c' c0), H.
Qed.

Lemma issue_app sid p1 p2 : issue sid (p1 ++ p2) = issue sid p1 ++ issue sid p2.
Proof. unfold issue. apply fmap_app. Qed.

(** C6. No-op on unmatched key: when the key of an entry is the key of no
    child of a school with the addressed id, the PUT with that entry and the
    PUT without it end in the same collections, both when the updates are
    applied in issue order and in every other run; no state of a run has a
    child more or less than before, and the handler replies its success
    text. *)
Theorem unmatched_entry_is_noop c sid p1 e p2 :
  (∀ d, d ∈ c → schoolId d = sid → studentId e ∉ keys d) →
  apply_in_order sid (p1 ++ e :: p2) c = apply_in_order sid (p1 ++ p2) c ∧
  (∀ c', rtc step (put sid (p1 ++ e :: p2) (Server c [])).1 (Server c' [])
         ↔ rtc step (put sid (p1 ++ p2) (Server c [])).1 (Server c' [])) ∧
  (∀ σ', rtc step (put sid (p1 ++ e :: p2) (Server c [])).1 σ' →
         keys <$> schools σ' = keys <$> c) ∧
  (put sid (p1 ++ e :: p2) (Server c [])).2 = Sent (Text "Students updated").
Proof.
  intros Hmiss%unmatched_target.
  pose proof (idle_on_shape c sid (studentId e) e Hmiss) as Hidle.
  split_and!; [| |intros σ' Hrun|done].
  - unfold apply_in_order. rewrite !issue_app, !drain_app.
    change (issue sid (e :: p2))
      with (UpdateOne sid (studentId e) e :: issue sid p2).
    change (drain (?o :: ?l) ?x) with (drain l (exec o x)).
    rewrite Hidle; [done|]. apply drain_shape, issue_put_command.
  - intros c'. simpl. rewrite !issue_app.
    change (issue sid (e :: p2))
      with (UpdateOne sid (studentId e) e :: issue sid p2).
    split; intros Hrun.
    + destruct (skip_forward c _ _ _ Hidle Hrun (issue sid p1) (issue sid p2))
        as [Hr|(l1' & l2' & Hnil & _)]; [done| |done|done|].
      * rewrite <-issue_app. apply issue_put_command.
      * simpl in Hnil. by destruct l1'.
    + eapply rtc_l; [|exact Hrun].
      pose proof (step_at true
        (Server c (issue sid p1 ++ UpdateOne sid (studentId e) e :: issue sid p2))
        (length (issue sid p1)) (UpdateOne sid (studentId e) e)) as Hst.
      unfold after in Hst. simpl in Hst.
      rewrite delete_middle in Hst.
      fold (exec (UpdateOne sid (studentId e) e) c) in Hst.
      rewrite Hidle in Hst by done.
      apply Hst. by apply list_lookup_middle.
  - simpl in Hrun.
    apply rtc_run_inv in Hrun as (_ & Hsh & _); [|apply issue_put_command].
    apply (f_equal (fmap (λ o, o.2))) in Hsh.
    unfold shape in Hsh. by rewrite <-!list_fmap_compose in Hsh.
Qed.

Lemma unmatched_entry_is_noop_witness :
  let c := [example_school] in
  let p1 := [named "s0" "A2"] in
  let e := named "sX" "Z" in
  (∀ d, d ∈ c → schoolId d = "1" → studentId e ∉ keys d) ∧
  apply_in_order "1" (p1 ++ e :: []) c = apply_in_order "1" (p1 ++ []) c ∧
  (∀ c', rtc step (put "1" (p1 ++ e :: []) (Server c [])).1 (Server c' [])
         ↔ rtc step (put "1" (p1 ++ []) (Server c [])).1 (Server c' [])) ∧
  (∀ σ', rtc step (put "1" (p1 ++ e :: []) (Server c [])).1 σ' →
         keys <$> schools σ' = keys <$> c) ∧
  (put "1" (p1 ++ e :: []) (Server c [])).2 = Sent (Text "Students updated").
Proof.
  intros c p1 e.
  assert (∀ d, d ∈ c → schoolId d = "1" → studentId e ∉ keys d) as Hmiss.
  { intros d Hd%list_elem_of_singleton _. subst d.
    apply (bool_decide_unpack _). by vm_compute. }
  split; [exact Hmiss|].
  exact (unmatched_entry_is_noop c "1" p1 e [] Hmiss).
Defined.

(** ** Entries that share a key *)

(** C5, as the code has it. Last-wins in issue order: when the updates of a
    PUT are applied in the order the handler issued them, the child an entry
    addresses ends with that entry as its value, provided no later entry of
    the patch set has the same key. *)
Theorem last_entry_wins_in_order c sid p1 e p2 i j :
  target sid (studentId e) c = Some (i, j) →
  Forall (λ e', studentId e' ≠ studentId e) p2 →
  child (apply_in_order sid (p1 ++ e :: p2) c) i j = Some e.
Proof.
  intros Ht Hlater. unfold apply_in_order.
  rewrite drain_child by apply issue_put_command.
  rewrite issue_app.
  change (issue sid (e :: p2))
    with (UpdateOne sid (studentId e) e :: issue sid p2).
  rewrite last_hit_middle; [done|done|].
  apply Forall_forall. intros o (e' & He' & ->)%elem_of_issue Hh.
  destruct (hits_same_key c i j sid (studentId e') e' sid (studentId e) e)
    as [_ Hk]; [done..|].
  eapply Forall_forall in Hlater; [|exact He']. done.
Qed.

Lemma last_entry_wins_in_order_witness :
  let c := [example_school] in
  let p1 := [named "s0" "X"] in
  let e := named "s0" "Y" in
  let p2 := [named "s1" "W"] in
  target "1" (studentId e) c = Some (0, 0) ∧
  Forall (λ e', studentId e' ≠ studentId e) p2 ∧
  child (apply_in_order "1" (p1 ++ e :: p2) c) 0 0 = Some e.
Proof.
  intros c p1 e p2.
  assert (Forall (λ e', studentId e' ≠ studentId e) p2) as Hlater.
  { repeat constructor. simpl. discriminate. }
  split; [reflexivity|]. split; [exact Hlater|].
  exact (last_entry_wins_in_order c "1" p1 e p2 0 0 eq_refl Hlater).
Defined.

(** The claim of C5 fails on the code: the two updates of a PUT are both in
    flight, and when the store applies the second first, the child ends with
    the attributes of the first entry. *)
Lemma first_entry_can_win :
  let patch := [named "s0" "X"; named "s0" "Y"] in
  ∃ c', rtc deliver (put "1" patch example_server).1 (Server c' []) ∧
        child c' 0 0 = Some (named "s0" "X") ∧
        child c' 0 0 ≠ Some (named "s0" "Y").
Proof.
  intros patch.
  exists [School "1" {[ "version" := Num 5 ]} [named "s0" "X"; named "s1" "B"]].
  split; [|split; [reflexivity|discriminate]].
  deliver_nth 1 (UpdateOne "1" "s0" (named "s0" "Y")).
  deliver_nth 0 (UpdateOne "1" "s0" (named "s0" "X")).
  apply rtc_refl.
Qed.

(** ** The same patch set twice *)

Lemma drain_twice l c :
  Forall put_command l → drain l (drain l c) = drain l c.
Proof.
  intros Hl. pose proof (drain_shape l c Hl) as Hsh.
  apply store_ext; [by rewrite drain_shape|].
  intros i j. rewrite (drain_child l (drain l c)) by done.
  rewrite (last_hit_same_shape (drain l c) c) by done.
  destruct (last_hit c i j l) as [o|] eqn:Hlast; [|done].
  by rewrite drain_child, Hlast.
Qed.

(** C8, as the code has it. Repeated Apply: a PUT applied in issue order a
    second time, with no other writer in between, leaves the collection as
    the first left it; no field of a school other than its students changes,
    so a version field is after the two what it was before them. *)
Theorem apply_twice_in_order c sid patch :
  apply_in_order sid patch (apply_in_order sid patch c)
  = apply_in_order sid patch c ∧
  version <$> apply_in_order sid patch (apply_in_order sid patch c)
  = version <$> c.
Proof.
  unfold apply_in_order.
  rewrite drain_twice by apply issue_put_command. split; [done|].
  apply fields_version, shape_fields, drain_shape, issue_put_command.
Qed.

(** The claim of C8 fails on the code: after the example patch set is applied
    twice the version field is still 5, not 7; and with the two updates of a
    PUT applied in another order, a second PUT can change what the first
    left. *)
Lemma second_apply_on_example :
  let c2 := apply_in_order "1" example_patch
              (apply_in_order "1" example_patch [example_school]) in
  let patch := [named "s0" "X"; named "s0" "Y"] in
  let c1 := apply_in_order "1" patch [example_school] in
  version <$> c2 = [Some (Num 5)] ∧ version <$> c2 ≠ [Some (Num 7)] ∧
  ∃ c3, rtc deliver (put "1" patch (Server c1 [])).1 (Server c3 []) ∧
        child c1 0 0 = Some (named "s0" "Y") ∧
        child c3 0 0 = Some (named "s0" "X").
Proof.
  intros c2 patch c1.
  split; [vm_compute; reflexivity|]. split; [vm_compute; discriminate|].
  exists [School "1" {[ "version" := Num 5 ]} [named "s0" "X"; named "s1" "B"]].
  split; [|split; reflexivity].
  deliver_nth 1 (UpdateOne "1" "s0" (named "s0" "Y")).
  deliver_nth 0 (UpdateOne "1" "s0" (named "s0" "X")).
  apply rtc_refl.
Qed.

(** ** Patch sets with pairwise distinct keys *)

Lemma deliver_inv σ σ' :
  deliver σ σ' →
  ∃ n o, inflight σ !! n = Some o ∧
         σ' = Server (exec o (schools σ)) (delete n (inflight σ)).
Proof. intros Hs. destruct Hs as [σ n o Ho]. by exists n, o. Qed.

(** A run that applies every in-flight command applies them in some order. *)
Lemma complete_run_order c l c' :
  rtc deliver (Server c l) (Server c' []) → ∃ π, π ≡ₚ l ∧ c' = drain π c.
Proof.
  remember (Server c l) as σ eqn:Hσ. remember (Server c' []) as σ' eqn:Hσ'.
  intros Hrun. revert c l Hσ.
  induction Hrun as [σ|σ σ2 σ3 Hstep Hrun IH]; intros c l ->.
  - injection Hσ' as -> ->. by exists [].
  - apply deliver_inv in Hstep as (n & o & Ho & ->). simpl in *.
    destruct (IH Hσ' (exec o c) (delete n l) eq_refl) as (π & Hπ & ->).
    exists (o :: π). split; [|done].
    rewrite Hπ. symmetry. by apply delete_Permutation.
Qed.

Lemma NoDup_fmap_eq {A B} (f : A → B) (l : list A) x y :
  NoDup (f <$> l) → x ∈ l → y ∈ l → f x = f y → x = y.
Proof.
  induction l as [|z l IH]; simpl; [by intros _ ?%elem_of_nil|].
  intros [Hz Hl]%NoDup_cons [->|Hx]%elem_of_cons [->|Hy]%elem_of_cons Hf;
    auto.
  - destruct Hz. rewrite Hf. by apply list_elem_of_fmap_2.
  - destruct Hz. rewrite <-Hf. by apply list_elem_of_fmap_2.
Qed.

(** With pairwise distinct keys at most one issued update writes at a
    position, so the order of application does not matter. *)
Lemma distinct_keys_any_order c sid patch π :
  NoDup (studentId <$> patch) → π ≡ₚ issue sid patch →
  drain π c = drain (issue sid patch) c.
Proof.
  intros Hnd Hπ.
  pose proof (issue_put_command sid patch) as Hl.
  assert (Forall put_command π) as Hlπ by (by rewrite Hπ).
  apply store_ext; [by rewrite !drain_shape|].
  intros i j. rewrite !drain_child by done.
  destruct (last_hit c i j π) as [o|] eqn:H1,
           (last_hit c i j (issue sid patch)) as [o'|] eqn:H2; [| | |done].
  - apply last_hit_Some in H1 as [Hin1 Hh1].
    apply last_hit_Some in H2 as [Hin2 Hh2].
    rewrite Hπ in Hin1.
    apply elem_of_issue in Hin1 as (e & He & ->).
    apply elem_of_issue in Hin2 as (e' & He' & ->).
    destruct (hits_same_key _ _ _ _ _ _ _ _ _ Hh1 Hh2) as [_ Hk].
    by rewrite (NoDup_fmap_eq studentId patch e e').
  - apply last_hit_Some in H1 as [Hin1 Hh1].
    rewrite last_hit_None in H2. rewrite Hπ in Hin1.
    eapply Forall_forall in H2; [|exact Hin1]. done.
  - apply last_hit_Some in H2 as [Hin2 Hh2].
    rewrite last_hit_None in H1. rewrite <-Hπ in Hin2.
    eapply Forall_forall in H1; [|exact Hin2]. done.
Qed.

Lemma distinct_keys_confluent c sid patch c' :
  NoDup (studentId <$> patch) →
  rtc deliver (put sid patch (Server c [])).1 (Server c' []) →
  c' = apply_in_order sid patch c.
Proof.
  intros Hnd (π & Hπ & ->)%complete_run_order.
  by apply distinct_keys_any_order.
Qed.

(** ** The example of the specification, run *)

Example example_patch_distinct : NoDup (studentId <$> example_patch).
Proof. apply (bool_decide_unpack _). by vm_compute. Qed.

(** C7, as the code has it. Result of a PUT: the handler replies with the
    text "Students updated" and nothing else, whatever the request; for the
    example of the specification, once the two issued updates have been
    applied, in either order, the children are s0 with name A2 and s1
    unchanged, and the version field is still 5. *)
Theorem example_result σ sid patch c' :
  rtc deliver (put "1" example_patch example_server).1 (Server c' []) →
  (put sid patch σ).2 = Sent (Text "Students updated") ∧
  c' = [School "1" {[ "version" := Num 5 ]}
          [named "s0" "A2"; named "s1" "B"]] ∧
  version <$> c' = [Some (Num 5)].
Proof.
  intros Hrun. split; [done|].
  apply distinct_keys_confluent in Hrun; [|apply example_patch_distinct].
  subst c'. split; vm_compute; reflexivity.
Qed.

Lemma example_result_witness :
  let c' := apply_in_order "1" example_patch [example_school] in
  rtc deliver (put "1" example_patch example_server).1 (Server c' []) ∧
  (put "1" example_patch example_server).2 = Sent (Text "Students updated") ∧
  c' = [School "1" {[ "version" := Num 5 ]}
          [named "s0" "A2"; named "s1" "B"]] ∧
  version <$> c' = [Some (Num 5)].
Proof.
  intros c'.
  assert (rtc deliver (put "1" example_patch example_server).1 (Server c' []))
    as Hrun by apply drain_run.
  split; [exact Hrun|].
  exact (example_result example_server "1" example_patch c' Hrun).
Defined.

(** The claim of C7 fails on the code: on the example, the reply is the bare
    text (it is no record of an applied count and skipped keys), and after
    both updates are applied the version field is 5, not 6. *)
Lemma example_reply_is_text :
  let c' := apply_in_order "1" example_patch [example_school] in
  rtc deliver (put "1" example_patch example_server).1 (Server c' []) ∧
  (put "1" example_patch example_server).2 = Sent (Text "Students updated") ∧
  (∀ l, (put "1" example_patch example_server).2 ≠ Sent (Students l)) ∧
  version <$> c' ≠ [Some (Num 6)].
Proof.
  intros c'. split_and!; [apply drain_run|reflexivity|discriminate|].
  vm_compute. discriminate.
Qed.

(** ** The version field *)

(** C2, as the code has it. No version counter: in every state reached after
    a PUT, whether its updates are pending, applied or lost, every field of
    every school other than its students is what it was before the PUT, a
    version field included; the school that [populateDB] inserts has no
    version field. *)
Theorem put_leaves_version σ sid patch σ' :
  inflight σ = [] →
  rtc step (put sid patch σ).1 σ' →
  fields <$> schools σ' = fields <$> schools σ ∧
  version <$> schools σ' = version <$> schools σ ∧
  version seed_school = None.
Proof.
  destruct σ as [c l]. simpl. intros -> Hrun.
  apply rtc_run_inv in Hrun as (_ & Hsh & _); [|apply issue_put_command].
  split_and!; [by apply shape_fields| |reflexivity].
  by apply fields_version, shape_fields.
Qed.

Lemma put_leaves_version_witness :
  let σ' := Server (apply_in_order "1" example_patch [example_school]) [] in
  inflight example_server = [] ∧
  rtc step (put "1" example_patch example_server).1 σ' ∧
  fields <$> schools σ' = fields <$> schools example_server ∧
  version <$> schools σ' = version <$> schools example_server ∧
  version seed_school = None.
Proof.
  intros σ'.
  assert (rtc step (put "1" example_patch example_server).1 σ') as Hrun
    by apply rtc_deliver_step, drain_run.
  split; [reflexivity|]. split; [exact Hrun|].
  exact (put_leaves_version example_server "1" example_patch σ' eq_refl Hrun).
Defined.

(** The claim of C2 fails on the code: the example school is stored with
    version 5; the PUT replies its success text, both its updates are
    applied, and the version field is 5, not 6. *)
Lemma version_not_incremented :
  let c' := apply_in_order "1" example_patch [example_school] in
  (put "1" example_patch example_server).2 = Sent (Text "Students updated") ∧
  rtc deliver (put "1" example_patch example_server).1 (Server c' []) ∧
  version <$> schools example_server = [Some (Num 5)] ∧
  version <$> c' = [Some (Num 5)] ∧
  version <$> c' ≠ [Some (Num 6)].
Proof.
  intros c'. split_and!; [reflexivity|apply drain_run|reflexivity| |].
  - vm_compute. reflexivity.
  - vm_compute. discriminate.
Qed.

(** ** A reader between two updates *)

(** C1, on the code. After a PUT that patches s0 and s1, the store may have
    applied one update and not yet the other; a GET then returns s0 patched
    and s1 unpatched, which is neither the children before the PUT nor the
    children with the whole patch set applied. *)
Theorem partial_batch_is_visible :
  let patch := [named "s0" "A2"; named "s1" "B2"] in
  let σ := (put "1" patch example_server).1 in
  ∃ σ', rtc deliver σ σ' ∧
    get "1" example_server
    = Sent (Students [named "s0" "A"; named "s1" "B"]) ∧
    get "1" σ' = Sent (Students [named "s0" "A2"; named "s1" "B"]) ∧
    get "1" (Server (apply_in_order "1" patch [example_school]) [])
    = Sent (Students [named "s0" "A2"; named "s1" "B2"]) ∧
    get "1" σ' ≠ get "1" example_server ∧
    get "1" σ'
    ≠ get "1" (Server (apply_in_order "1" patch [example_school]) []).
Proof.
  intros patch σ.
  exists (Server [School "1" {[ "version" := Num 5 ]}
                    [named "s0" "A2"; named "s1" "B"]]
                 (issue "1" [named "s1" "B2"])).
  split_and!; try (vm_compute; reflexivity); try (vm_compute; discriminate).
  deliver_nth 0 (UpdateOne "1" "s0" (named "s0" "A2")). apply rtc_refl.
Qed.

(** * Further properties of the handlers and of the store *)

(** ** The positional operator writes at the first match *)

Lemma target_first sid k c i j :
  target sid k c = Some (i, j) →
  (∀ i' d', c !! i' = Some d' → i' < i → ¬ selects sid k d') ∧
  (∀ d j' s', c !! i = Some d → students d !! j' = Some s' → j' < j →
              studentId s' ≠ k).
Proof.
  unfold target. intros H.
  destruct (list_find (selects sid k) c) as [[i' d]|] eqn:Hd; simplify_eq/=.
  destruct (list_find _ (students d)) as [[j' s]|] eqn:Hs; simplify_eq/=.
  apply list_find_Some in Hd as (Hi & _ & Hmin).
  apply list_find_Some in Hs as (Hj & _ & Hminj).
  split; [done|]. intros d0 j0 s0 Hd0 Hs0 Hlt. simplify_eq. by eapply Hminj.
Qed.

Lemma target_intro sid k c i j d s :
  c !! i = Some d → schoolId d = sid →
  (∀ i' d', c !! i' = Some d' → i' < i → schoolId d' ≠ sid) →
  students d !! j = Some s → studentId s = k →
  (∀ j' s', students d !! j' = Some s' → j' < j → studentId s' ≠ k) →
  target sid k c = Some (i, j).
Proof.
  intros Hd Hsid Hmin Hs Hk Hminj. unfold target.
  assert (list_find (selects sid k) c = Some (i, d)) as ->.
  { apply list_find_Some. split_and!; [done| |].
    - split; [done|]. apply Exists_exists. exists s.
      split; [by eapply list_elem_of_lookup_2|done].
    - intros i' d' Hd' Hlt [Hsid' _]. by eapply Hmin. }
  simpl.
  assert (list_find (λ s, studentId s = k) (students d) = Some (j, s)) as ->.
  { apply list_find_Some. by split_and!. }
  done.
Qed.

(** X1. A child that stands behind another child with the same key in the
    same array is out of reach of the PUT handler: in every state of every
    run after a PUT it is what it was. *)
Theorem shadowed_duplicate_untouched σ sid patch σ' i d j1 j2 s1 s2 :
  inflight σ = [] →
  rtc step (put sid patch σ).1 σ' →
  schools σ !! i = Some d →
  students d !! j1 = Some s1 → students d !! j2 = Some s2 →
  j1 < j2 → studentId s1 = studentId s2 →
  child (schools σ') i j2 = Some s2.
Proof.
  destruct σ as [c l]. simpl. intros -> Hrun Hd Hs1 Hs2 Hlt Hk.
  apply rtc_run_inv in Hrun as (_ & _ & Hch); [|apply issue_put_command].
  assert (child c i j2 = Some s2) as Hc.
  { unfold child. by rewrite Hd. }
  destruct (Hch i j2) as [->|(o & Hin & Hh & _)]; [done|].
  apply elem_of_issue in Hin as (e & _ & ->). simpl in Hh.
  pose proof (target_first _ _ _ _ _ Hh) as [_ Hminj].
  apply target_Some in Hh as (d0 & s0 & Hd0 & _ & Hs0 & Hk0). simplify_eq.
  destruct (Hminj d j1 s1); [done..|]. by rewrite Hk.
Qed.

Lemma shadowed_duplicate_untouched_witness :
  let d := School "1" ∅ [named "s0" "A"; named "s0" "B"] in
  let σ := Server [d] [] in
  let patch := [named "s0" "C"] in
  let σ' := Server [School "1" ∅ [named "s0" "C"; named "s0" "B"]] [] in
  inflight σ = [] ∧ rtc step (put "1" patch σ).1 σ' ∧
  child (schools σ') 0 1 = Some (named "s0" "B").
Proof.
  intros d σ patch σ'.
  assert (rtc step (put "1" patch σ).1 σ') as Hrun.
  { apply rtc_deliver_step.
    deliver_nth 0 (UpdateOne "1" "s0" (named "s0" "C")). apply rtc_refl. }
  split; [reflexivity|]. split; [exact Hrun|].
  apply (shadowed_duplicate_untouched σ "1" patch σ' 0 d 0 1
           (named "s0" "A") (named "s0" "B"));
    [reflexivity|exact Hrun|reflexivity..|lia|reflexivity].
Defined.

(** ** A reader never sees a torn student *)

(** X2. Whatever the store has done with the updates of a PUT (none, some,
    all, in any order, some lost), each child a reader finds is either the
    child that was stored before or a whole entry of the patch set with the
    same key, and the latter only in a school with the requested id. *)
Theorem reader_sees_whole_students σ sid patch σ' i d j s :
  inflight σ = [] →
  rtc step (put sid patch σ).1 σ' →
  schools σ !! i = Some d → students d !! j = Some s →
  child (schools σ') i j = Some s ∨
  ∃ e, e ∈ patch ∧ studentId e = studentId s ∧ schoolId d = sid ∧
       child (schools σ') i j = Some e.
Proof.
  destruct σ as [c l]. simpl. intros -> Hrun Hd Hs.
  apply rtc_run_inv in Hrun as (_ & _ & Hch); [|apply issue_put_command].
  assert (child c i j = Some s) as Hc.
  { unfold child. by rewrite Hd. }
  destruct (Hch i j) as [->|(o & Hin & Hh & Hp)]; [by left|].
  right. apply elem_of_issue in Hin as (e & He & ->). simpl in Hh, Hp.
  apply target_Some in Hh as (d0 & s0 & Hd0 & Hsid & Hs0 & Hk0). simplify_eq.
  by exists e.
Qed.

Lemma reader_sees_whole_students_witness :
  let σ' := Server [School "1" {[ "version" := Num 5 ]}
                      [named "s0" "A2"; named "s1" "B"]]
                   (issue "1" [named "sX" "Z"]) in
  inflight example_server = [] ∧
  rtc step (put "1" example_patch example_server).1 σ' ∧
  (child (schools σ') 0 0 = Some (named "s0" "A") ∨
   ∃ e, e ∈ example_patch ∧ studentId e = studentId (named "s0" "A") ∧
        schoolId example_school = "1" ∧ child (schools σ') 0 0 = Some e).
Proof.
  intros σ'.
  assert (rtc step (put "1" example_patch example_server).1 σ') as Hrun.
  { apply rtc_deliver_step.
    deliver_nth 0 (UpdateOne "1" "s0" (named "s0" "A2")). apply rtc_refl. }
  split; [reflexivity|]. split; [exact Hrun|].
  apply (reader_sees_whole_students example_server "1" example_patch σ'
           0 example_school 0 (named "s0" "A"));
    [reflexivity|exact Hrun|reflexivity|reflexivity].
Defined.

(** ** Updates with different filters *)

Lemma put_command_inv o :
  put_command o → ∃ sid v, o = UpdateOne sid (studentId v) v.
Proof. destruct o as [sid k v| |]; simpl; [|done..]. intros ->. eauto. Qed.

(** In-flight [put] commands with pairwise different filters write at
    pairwise different positions, so any order of application gives the same
    collection. *)
Lemma distinct_filters_any_order c l π :
  Forall put_command l → NoDup (filter_of <$> l) → π ≡ₚ l →
  drain π c = drain l c.
Proof.
  intros Hl Hnd Hπ.
  assert (Forall put_command π) as Hlπ by (by rewrite Hπ).
  assert (∀ i j o o', o ∈ l → o' ∈ l → hits c i j o → hits c i j o' → o = o')
    as Hone.
  { intros i j o o' Ho Ho' Hh Hh'.
    apply (NoDup_fmap_eq filter_of l); [done..|].
    destruct (put_command_inv o) as (sid & v & ->).
    { by eapply Forall_forall in Hl. }
    destruct (put_command_inv o') as (sid' & v' & ->).
    { by eapply Forall_forall in Hl. }
    destruct (hits_same_key _ _ _ _ _ _ _ _ _ Hh Hh') as [Hs Hk].
    simpl. by rewrite Hs, Hk. }
  apply store_ext; [by rewrite !drain_shape|].
  intros i j. rewrite !drain_child by done.
  destruct (last_hit c i j π) as [o|] eqn:H1,
           (last_hit c i j l) as [o'|] eqn:H2; [| | |done].
  - apply last_hit_Some in H1 as [Hin1 Hh1].
    apply last_hit_Some in H2 as [Hin2 Hh2].
    rewrite Hπ in Hin1. by rewrite (Hone i j o o').
  - apply last_hit_Some in H1 as [Hin1 Hh1].
    rewrite last_hit_None in H2. rewrite Hπ in Hin1.
    eapply Forall_forall in H2; [|exact Hin1]. done.
  - apply last_hit_Some in H2 as [Hin2 Hh2].
    rewrite last_hit_None in H1. rewrite <-Hπ in Hin2.
    eapply Forall_forall in H1; [|exact Hin2]. done.
Qed.

(** X3. Two updates as the PUT handler issues them, for different schools or
    for different keys, commute: the collection is the same whichever the
    store applies first. *)
Theorem updates_commute sid v sid' v' c :
  sid ≠ sid' ∨ studentId v ≠ studentId v' →
  updateOne sid (studentId v) v (updateOne sid' (studentId v') v' c)
  = updateOne sid' (studentId v') v' (updateOne sid (studentId v) v c).
Proof.
  intros Hne.
  pose (o := UpdateOne sid (studentId v) v).
  pose (o' := UpdateOne sid' (studentId v') v').
  change (drain [o'; o] c = drain [o; o'] c).
  apply distinct_filters_any_order.
  - by repeat constructor.
  - simpl. apply NoDup_cons. split; [|apply NoDup_singleton].
    intros [= Hs Hk]%list_elem_of_singleton. by destruct Hne.
  - apply perm_swap.
Qed.

Lemma updates_commute_witness :
  ("1" ≠ "1" ∨ studentId (named "s0" "A2") ≠ studentId (named "s1" "B2")) ∧
  updateOne "1" "s0" (named "s0" "A2")
    (updateOne "1" "s1" (named "s1" "B2") [example_school])
  = updateOne "1" "s1" (named "s1" "B2")
      (updateOne "1" "s0" (named "s0" "A2") [example_school]).
Proof.
  assert ("1" ≠ "1" ∨ studentId (named "s0" "A2") ≠ studentId (named "s1" "B2"))
    as Hne by (right; discriminate).
  split; [exact Hne|].
  exact (updates_commute "1" (named "s0" "A2") "1" (named "s1" "B2")
           [example_school] Hne).
Defined.

(** X4. Of two updates with the same filter applied one after the other only
    the second shows: the first is overwritten whole, none of its attributes
    survives. *)
Theorem later_update_overwrites sid v1 v2 c :
  studentId v1 = studentId v2 →
  updateOne sid (studentId v2) v2 (updateOne sid (studentId v1) v1 c)
  = updateOne sid (studentId v2) v2 c.
Proof.
  intros Hk.
  pose proof (updateOne_shape sid v1 c) as Hsh1.
  apply store_ext; [by rewrite !updateOne_shape|].
  intros i j. rewrite !updateOne_child.
  rewrite (target_same_shape sid (studentId v2) _ c) by done.
  case_decide as H2; [done|].
  rewrite decide_False; [done|]. by rewrite Hk.
Qed.

Lemma later_update_overwrites_witness :
  studentId (named "s0" "X") = studentId (named "s0" "Y") ∧
  updateOne "1" "s0" (named "s0" "Y")
    (updateOne "1" "s0" (named "s0" "X") [example_school])
  = updateOne "1" "s0" (named "s0" "Y") [example_school].
Proof.
  split; [reflexivity|].
  exact (later_update_overwrites "1" (named "s0" "X") (named "s0" "Y")
           [example_school] eq_refl).
Defined.

(** ** Runs of PUTs whose entries have pairwise distinct keys *)

Lemma filter_of_issue sid patch :
  filter_of <$> issue sid patch = (λ s, Some (sid, studentId s)) <$> patch.
Proof. unfold issue. by rewrite <-list_fmap_compose. Qed.

Lemma NoDup_filter_of_issue sid patch :
  NoDup (studentId <$> patch) → NoDup (filter_of <$> issue sid patch).
Proof.
  intros H. rewrite filter_of_issue.
  rewrite (list_fmap_compose studentId (λ k, Some (sid, k))).
  apply NoDup_fmap_2; [|done]. by intros k k' [= ->].
Qed.

(** X5. When the entries of a PUT have pairwise distinct keys the outcome
    does not depend on the store: the collections in which the runs that
    apply every issued update can end are exactly one, the collection that
    applying the updates in issue order gives. *)
Theorem put_distinct_keys_deterministic c sid patch c' :
  NoDup (studentId <$> patch) →
  rtc deliver (put sid patch (Server c [])).1 (Server c' [])
  ↔ c' = apply_in_order sid patch c.
Proof.
  intros Hnd. split.
  - intros (π & Hπ & ->)%complete_run_order. simpl in Hπ.
    apply distinct_filters_any_order;
      [apply issue_put_command|by apply NoDup_filter_of_issue|done].
  - intros ->. apply drain_run.
Qed.

Lemma put_distinct_keys_deterministic_witness :
  NoDup (studentId <$> example_patch) ∧
  (rtc deliver (put "1" example_patch (Server [example_school] [])).1
     (Server (apply_in_order "1" example_patch [example_school]) [])
   ↔ apply_in_order "1" example_patch [example_school]
     = apply_in_order "1" example_patch [example_school]).
Proof.
  assert (NoDup (studentId <$> example_patch)) as Hnd.
  { apply (bool_decide_unpack _). by vm_compute. }
  split; [exact Hnd|].
  exact (put_distinct_keys_deterministic [example_school] "1" example_patch
           _ Hnd).
Defined.

(** X6. Two PUTs in flight together, for different schools or with disjoint
    keys, each with pairwise distinct keys, lose no update: every run that
    applies all their updates, however interleaved, ends in the collection
    that one PUT applied after the other gives, in either order. *)
Theorem concurrent_puts_disjoint c sid1 p1 sid2 p2 c' :
  NoDup (studentId <$> p1) → NoDup (studentId <$> p2) →
  sid1 ≠ sid2 ∨ (∀ k, k ∈ studentId <$> p1 → k ∉ studentId <$> p2) →
  rtc deliver (put sid2 p2 (put sid1 p1 (Server c [])).1).1 (Server c' []) →
  c' = apply_in_order sid2 p2 (apply_in_order sid1 p1 c) ∧
  c' = apply_in_order sid1 p1 (apply_in_order sid2 p2 c).
Proof.
  intros Hnd1 Hnd2 Hdisj Hrun. simpl in Hrun.
  apply complete_run_order in Hrun as (π & Hπ & ->).
  assert (Forall put_command (issue sid1 p1 ++ issue sid2 p2)) as Hput.
  { apply Forall_app. split; apply issue_put_command. }
  assert (NoDup (filter_of <$> (issue sid1 p1 ++ issue sid2 p2))) as Hnd.
  { rewrite fmap_app. apply NoDup_app.
    split_and!; [by apply NoDup_filter_of_issue| |by apply NoDup_filter_of_issue].
    intros f. rewrite !filter_of_issue.
    intros (s1 & -> & Hs1)%list_elem_of_fmap (s2 & [= -> Hk] & Hs2)%list_elem_of_fmap.
    destruct Hdisj as [?|Hdisj]; [done|].
    apply (Hdisj (studentId s1)); [by apply list_elem_of_fmap_2|].
    rewrite Hk. by apply list_elem_of_fmap_2. }
  unfold apply_in_order.
  rewrite <-(drain_app (issue sid1 p1) (issue sid2 p2)).
  rewrite <-(drain_app (issue sid2 p2) (issue sid1 p1)).
  rewrite (distinct_filters_any_order c _ π Hput Hnd Hπ). split; [done|].
  symmetry. apply distinct_filters_any_order; [done..|].
  apply Permutation_app_comm.
Qed.

Lemma concurrent_puts_disjoint_witness :
  let p1 := [named "s0" "A2"] in
  let p2 := [named "s1" "B2"] in
  let c' := [School "1" {[ "version" := Num 5 ]}
               [named "s0" "A2"; named "s1" "B2"]] in
  NoDup (studentId <$> p1) ∧ NoDup (studentId <$> p2) ∧
  rtc deliver (put "1" p2 (put "1" p1 example_server).1).1 (Server c' []) ∧
  c' = apply_in_order "1" p2 (apply_in_order "1" p1 [example_school]) ∧
  c' = apply_in_order "1" p1 (apply_in_order "1" p2 [example_school]).
Proof.
  intros p1 p2 c'.
  assert (NoDup (studentId <$> p1)) as H1
    by (apply (bool_decide_unpack _); by vm_compute).
  assert (NoDup (studentId <$> p2)) as H2
    by (apply (bool_decide_unpack _); by vm_compute).
  assert (rtc deliver (put "1" p2 (put "1" p1 example_server).1).1
            (Server c' [])) as Hrun.
  { deliver_nth 1 (UpdateOne "1" "s1" (named "s1" "B2")).
    deliver_nth 0 (UpdateOne "1" "s0" (named "s0" "A2")). apply rtc_refl. }
  split; [exact H1|]. split; [exact H2|]. split; [exact Hrun|].
  apply (concurrent_puts_disjoint [example_school] "1" p1 "1" p2 c' H1 H2);
    [|exact Hrun].
  right. intros k Hk1 Hk2.
  apply list_elem_of_singleton in Hk1. apply list_elem_of_singleton in Hk2.
  subst k. discriminate Hk2.
Defined.

(** ** Reading after a PUT *)

Lemma findOne_Some sid c d :
  findOne sid c = Some d ↔
  ∃ i, c !! i = Some d ∧ schoolId d = sid ∧
       ∀ i' d', c !! i' = Some d' → i' < i → schoolId d' ≠ sid.
Proof.
  unfold findOne. rewrite fmap_Some. split.
  - intros ([i d'] & (? & ? & ?)%list_find_Some & ->). by exists i.
  - intros (i & ? & ? & ?). exists (i, d). split; [|done].
    by apply list_find_Some.
Qed.

(** [findOne] finds a document at the same place in a collection of the same
    shape. *)
Lemma findOne_same_shape sid c c' i d :
  shape c = shape c' →
  c !! i = Some d → schoolId d = sid →
  (∀ i' d', c !! i' = Some d' → i' < i → schoolId d' ≠ sid) →
  ∃ d', findOne sid c' = Some d' ∧ c' !! i = Some d' ∧ keys d' = keys d.
Proof.
  intros Hsh Hd Hsid Hmin.
  destruct (shape_lookup c c' i d Hsh Hd) as (d' & Hd' & Ho).
  unfold outline in Ho. injection Ho as Hsid' _ Hkeys.
  exists d'. split_and!; [|done..].
  apply findOne_Some. exists i. split_and!; [done|congruence|].
  intros i' d0' Hd0' Hlt.
  destruct (shape_lookup c' c i' d0') as (d0 & Hd0 & Ho0); [done..|].
  unfold outline in Ho0. injection Ho0 as Hsid0 _ _.
  rewrite <-Hsid0. by eapply Hmin.
Qed.

(** X7. The read endpoint keeps answering for a stored school while the
    updates of a PUT are pending or applied, in any order: it sends a list
    with the same keys in the same order as before the PUT, and the very
    same list when the PUT is for another school. *)
Theorem get_after_put σ sid sid' patch σ' d :
  inflight σ = [] →
  findOne sid (schools σ) = Some d →
  rtc deliver (put sid' patch σ).1 σ' →
  ∃ l, get sid σ' = Sent (Students l) ∧
       studentId <$> l = keys d ∧
       (sid ≠ sid' → l = students d).
Proof.
  destruct σ as [c l0]. simpl.
  intros -> (i & Hd & Hsid & Hmin)%findOne_Some Hrun%rtc_deliver_step.
  apply rtc_run_inv in Hrun as (_ & Hsh & Hch); [|apply issue_put_command].
  destruct (findOne_same_shape sid c (schools σ') i d) as (d' & Hf & Hd' & Hk);
    [done..|].
  exists (students d'). unfold get. rewrite Hf. split_and!; [done..|].
  intros Hne. apply list_eq. intros j.
  destruct (Hch i j) as [Heq|(o & Hin & Hh & _)].
  - unfold child in Heq. by rewrite Hd, Hd' in Heq.
  - apply elem_of_issue in Hin as (e & _ & ->). simpl in Hh.
    apply target_Some in Hh as (d0 & s0 & Hd0 & Hsid0 & _). simplify_eq.
Qed.

Lemma get_after_put_witness :
  let d1 := School "1" ∅ [named "s0" "A"] in
  let σ := Server [d1; School "2" ∅ [named "s0" "B"]] [] in
  let σ2 := Server [d1; School "2" ∅ [named "s0" "C"]] [] in
  let σ1 := Server [School "1" ∅ [named "s0" "C"];
                    School "2" ∅ [named "s0" "B"]] [] in
  (inflight σ = [] ∧ findOne "1" (schools σ) = Some d1 ∧
   rtc deliver (put "2" [named "s0" "C"] σ).1 σ2 ∧ "1" ≠ "2" ∧
   ∃ l, get "1" σ2 = Sent (Students l) ∧
        studentId <$> l = keys d1 ∧ ("1" ≠ "2" → l = students d1)) ∧
  (rtc deliver (put "1" [named "s0" "C"] σ).1 σ1 ∧
   ∃ l, get "1" σ1 = Sent (Students l) ∧
        studentId <$> l = keys d1 ∧ ("1" ≠ "1" → l = students d1)).
Proof.
  intros d1 σ σ2 σ1.
  assert (rtc deliver (put "2" [named "s0" "C"] σ).1 σ2) as Hrun2.
  { deliver_nth 0 (UpdateOne "2" "s0" (named "s0" "C")). apply rtc_refl. }
  assert (rtc deliver (put "1" [named "s0" "C"] σ).1 σ1) as Hrun1.
  { deliver_nth 0 (UpdateOne "1" "s0" (named "s0" "C")). apply rtc_refl. }
  split.
  - split; [reflexivity|]. split; [reflexivity|]. split; [exact Hrun2|].
    split; [discriminate|].
    exact (get_after_put σ "1" "2" [named "s0" "C"] σ2 d1
             eq_refl eq_refl Hrun2).
  - split; [exact Hrun1|].
    exact (get_after_put σ "1" "1" [named "s0" "C"] σ1 d1
             eq_refl eq_refl Hrun1).
Defined.

Lemma patched_Some patch s e :
  snd <$> list_find (λ e, studentId e = studentId s) (reverse patch) = Some e →
  patched patch s = e.
Proof.
  unfold patched. by intros ([n e'] & -> & ->)%fmap_Some.
Qed.

Lemma patched_None patch s :
  list_find (λ e, studentId e = studentId s) (reverse patch) = None →
  patched patch s = s.
Proof. unfold patched. by intros ->. Qed.

(** The last issued update that writes over the student [s], the first of
    its key in the first school with the requested id, is the update of the
    last entry with the key of [s]. *)
Lemma last_hit_issue c sid patch i j d s :
  c !! i = Some d → schoolId d = sid →
  (∀ i' d', c !! i' = Some d' → i' < i → schoolId d' ≠ sid) →
  students d !! j = Some s →
  (∀ j' s', students d !! j' = Some s' → j' < j → studentId s' ≠ studentId s) →
  last_hit c i j (issue sid patch)
  = (λ e, UpdateOne sid (studentId e) e)
    <$> (snd <$> list_find (λ e, studentId e = studentId s) (reverse patch)).
Proof.
  intros Hd Hsid Hmin Hs Hminj. unfold last_hit, issue.
  rewrite <-fmap_reverse, list_find_fmap.
  rewrite (list_find_ext _ (λ e, studentId e = studentId s)).
  2:{ intros e. simpl. split.
      - intros (d0 & s0 & ? & ? & ? & ?)%target_Some. by simplify_eq.
      - intros He. rewrite He. by eapply target_intro. }
  by destruct (list_find _ (reverse patch)) as [[n e]|].
Qed.

(** The students of a stored school with pairwise distinct keys, once the
    updates of a PUT have been applied in issue order. *)
Lemma get_in_order c sid patch d :
  findOne sid c = Some d →
  NoDup (keys d) →
  get sid (Server (apply_in_order sid patch c) [])
  = Sent (Students (patched patch <$> students d)).
Proof.
  intros (i & Hd & Hsid & Hmin)%findOne_Some Hnd.
  pose proof (issue_put_command sid patch) as Hput.
  pose proof (drain_shape (issue sid patch) c Hput) as Hsh.
  destruct (findOne_same_shape sid c (apply_in_order sid patch c) i d)
    as (d' & Hf & Hd' & Hk); [done..|].
  unfold get. simpl. rewrite Hf. do 2 f_equal.
  apply list_eq. intros j. rewrite list_lookup_fmap.
  pose proof (drain_child (issue sid patch) c i j Hput) as Hch.
  fold (apply_in_order sid patch c) in Hch.
  unfold child in Hch at 1. rewrite Hd' in Hch. simpl in Hch. rewrite Hch.
  destruct (students d !! j) as [s|] eqn:Hs; simpl.
  - rewrite (last_hit_issue c sid patch i j d s); [|done..|].
    + destruct (list_find _ (reverse patch)) as [[n e]|] eqn:He; simpl.
      * f_equal. symmetry. apply patched_Some. by rewrite He.
      * unfold child. rewrite Hd. simpl. rewrite Hs. f_equal. symmetry.
        by apply patched_None.
    + intros j' s' Hs' Hlt Heq.
      assert (j' = j); [|lia].
      apply (NoDup_lookup (keys d) j' j (studentId s)); [done|..];
        unfold keys; rewrite list_lookup_fmap.
      * by rewrite Hs', <-Heq.
      * by rewrite Hs.
  - destruct (last_hit c i j (issue sid patch)) as [o|] eqn:Hl.
    + apply last_hit_Some in Hl as [(e & _ & ->)%elem_of_issue Hh].
      simpl in Hh.
      apply target_Some in Hh as (d0 & s0 & ? & ? & ? & ?). simplify_eq.
    + unfold child. rewrite Hd. simpl. by rewrite Hs.
Qed.

(** X8. What a GET returns once a PUT has been applied in issue order: for a
    stored school whose children have pairwise distinct keys, the children
    in their stored order, each replaced by the last entry of the patch set
    that has its key when there is one. Entries with other keys leave no
    trace. *)
Theorem put_then_get c sid patch d :
  findOne sid c = Some d →
  NoDup (keys d) →
  get sid (Server (apply_in_order sid patch c) [])
  = Sent (Students (patched patch <$> students d)).
Proof. apply get_in_order. Qed.

Lemma put_then_get_witness :
  findOne "1" [example_school] = Some example_school ∧
  NoDup (keys example_school) ∧
  get "1" (Server (apply_in_order "1" example_patch [example_school]) [])
  = Sent (Students (patched example_patch <$> students example_school)).
Proof.
  assert (NoDup (keys example_school)) as Hnd
    by (apply (bool_decide_unpack _); by vm_compute).
  split; [reflexivity|]. split; [exact Hnd|].
  exact (put_then_get [example_school] "1" example_patch example_school
           eq_refl Hnd).
Defined.

Example patched_example :
  patched example_patch <$> students example_school
  = [named "s0" "A2"; named "s1" "B"].
Proof. vm_compute. reflexivity. Qed.

(** ** Seeding *)

(** X9. [populateDB] awaits neither [drop()] nor [insertOne()]: whatever the
    collection held, the runs that apply both commands end with the seeded
    school alone in the collection, or with an empty collection when the
    insert is applied before the drop; both happen. *)
Theorem populateDB_outcomes c c' :
  rtc deliver (populateDB (Server c [])) (Server c' [])
  ↔ c' = [seed_school] ∨ c' = [].
Proof.
  split.
  - intros (π & Hπ & ->)%complete_run_order. simpl in Hπ.
    symmetry in Hπ. apply Permutation_length_2_inv in Hπ as [->| ->].
    + by left.
    + by right.
  - intros [->| ->].
    + apply (drain_run [Drop; InsertOne seed_school] c).
    + deliver_nth 1 (InsertOne seed_school). deliver_nth 0 Drop.
      apply rtc_refl.
Qed.

Lemma keys_seed_school :
  keys seed_school = (λ i, "student" +:+ pretty i) <$> seq 0 1000.
Proof.
  unfold keys, seed_school, students. by rewrite <-list_fmap_compose.
Qed.

Lemma NoDup_keys_seed_school : NoDup (keys seed_school).
Proof.
  rewrite keys_seed_school.
  change (NoDup ((String.append "student" ∘ (pretty : nat → string))
                   <$> seq 0 1000)).
  rewrite list_fmap_compose.
  apply NoDup_fmap_2; [apply _|].
  apply NoDup_fmap_2; [apply _|]. apply NoDup_seq.
Qed.

(** X10. The seeded school keeps its children keys: in every state of every
    run after a PUT on the seeded collection there is one school, with id
    "1" and 1000 children, the [i]-th with key "student[i]", and no two
    children with the same key. *)
Theorem seeded_keys_invariant sid patch σ' :
  rtc step (put sid patch (Server [seed_school] [])).1 σ' →
  ∃ d, schools σ' = [d] ∧ schoolId d = "1" ∧
       length (students d) = 1000 ∧
       keys d = (λ i, "student" +:+ pretty i) <$> seq 0 1000 ∧
       NoDup (keys d).
Proof.
  intros Hrun. simpl in Hrun.
  apply rtc_run_inv in Hrun as (_ & Hsh & _); [|apply issue_put_command].
  destruct (schools σ') as [|d [|d2 c2]]; try discriminate Hsh.
  change ([outline d] = [outline seed_school]) in Hsh.
  injection Hsh as Hsid _ Hkeys.
  exists d. split_and!; [done|done| | |].
  - apply (f_equal length) in Hkeys. unfold keys in Hkeys at 1.
    rewrite keys_seed_school, !length_fmap, length_seq in Hkeys. done.
  - by rewrite Hkeys, keys_seed_school.
  - rewrite Hkeys. apply NoDup_keys_seed_school.
Qed.

Lemma seeded_keys_invariant_witness :
  let patch := [Student "student7" {[ "name" := Str "Updated Student 7" ]};
                Student "student8" {[ "name" := Str "Updated Student 8" ]}] in
  let σ0 := (put "1" patch (Server [seed_school] [])).1 in
  let o7 := UpdateOne "1" "student7"
              (Student "student7" {[ "name" := Str "Updated Student 7" ]}) in
  let o8 := UpdateOne "1" "student8"
              (Student "student8" {[ "name" := Str "Updated Student 8" ]}) in
  let σ' := after false 0 o8 (after true 0 o7 σ0) in
  rtc step σ0 σ' ∧
  inflight σ' = [] ∧
  ∃ d, schools σ' = [d] ∧ schoolId d = "1" ∧
       length (students d) = 1000 ∧
       keys d = (λ i, "student" +:+ pretty i) <$> seq 0 1000 ∧
       NoDup (keys d).
Proof.
  intros patch σ0 o7 o8 σ'.
  assert (rtc step σ0 σ') as Hrun.
  { eapply rtc_l; [apply (step_at true σ0 0 o7); reflexivity|].
    eapply rtc_l; [|apply rtc_refl].
    apply (step_at false (after true 0 o7 σ0) 0 o8). reflexivity. }
  split; [exact Hrun|]. split; [reflexivity|].
  exact (seeded_keys_invariant "1" patch σ' Hrun).
Defined.

Example seeded_update_applied :
  child (apply_in_order "1"
           [Student "student7" {[ "name" := Str "Updated Student 7" ]}]
           [seed_school]) 0 7
  = Some (Student "student7" {[ "name" := Str "Updated Student 7" ]}).
Proof. vm_compute. reflexivity. Qed.

(** * The other update strategies of the article *)

Example put_concat_example :
  (put_concat "1" example_patch [example_school]).1
  = [School "1" {[ "version" := Num 5 ]}
       [named "s1" "B"; named "s0" "A2"; named "sX" "Z"]].
Proof. vm_compute. reflexivity. Qed.

Example put_merge_example :
  (put_merge "1" [Student "s0" {[ "age" := Num 21 ]}] [example_school]).1
  = [School "1" {[ "version" := Num 5 ]}
       [Student "s0" {[ "name" := Str "A"; "age" := Num 21 ]};
        named "s1" "B"]].
Proof. vm_compute. reflexivity. Qed.

Example put_for_loop_example :
  (put_for_loop example_patch [example_school]).1
  = apply_in_order "1" example_patch [example_school].
Proof. vm_compute. reflexivity. Qed.

(** ** What [patched] picks *)

Lemma patched_cases patch s :
  (patched patch s = s ∧ studentId s ∉ studentId <$> patch) ∨
  (patched patch s ∈ patch ∧ studentId (patched patch s) = studentId s).
Proof.
  unfold patched.
  destruct (list_find _ (reverse patch)) as [[n e]|] eqn:He.
  - right. apply list_find_Some in He as (Hn & Hk & _). split; [|done].
    apply elem_of_reverse. by eapply list_elem_of_lookup_2.
  - left. split; [done|]. apply list_find_None in He.
    intros (e & Hk & Hin)%list_elem_of_fmap.
    eapply Forall_forall in He; [|by apply elem_of_reverse]. done.
Qed.

Lemma patched_key patch s : studentId (patched patch s) = studentId s.
Proof. destruct (patched_cases patch s) as [[-> _]|[_ ?]]; done. Qed.

Lemma patched_unique patch s e :
  NoDup (studentId <$> patch) → e ∈ patch → studentId e = studentId s →
  patched patch s = e.
Proof.
  intros Hnd He Hk.
  destruct (patched_cases patch s) as [[_ Hno]|[Hin Hk']].
  - destruct Hno. rewrite <-Hk. by apply list_elem_of_fmap_2.
  - apply (NoDup_fmap_eq studentId patch); [done..|congruence].
Qed.

(** ** Filter and concat *)

Lemma list_find_schoolId sid c i d :
  list_find (λ d, schoolId d = sid) c = Some (i, d) → findOne sid c = Some d.
Proof. unfold findOne. by intros ->. Qed.

Lemma update_first_None sid f c :
  list_find (λ d, schoolId d = sid) c = None → update_first sid f c = c.
Proof. unfold update_first. by intros ->. Qed.

Lemma update_first_Some sid f c i d :
  list_find (λ d, schoolId d = sid) c = Some (i, d) →
  update_first sid f c
  = alter (λ d, School (schoolId d) (fields d) (f (students d))) i c.
Proof. unfold update_first. by intros ->. Qed.

(** The rewritten school is still the first with its id. *)
Lemma list_find_update_first sid f c i d :
  list_find (λ d, schoolId d = sid) c = Some (i, d) →
  list_find (λ d, schoolId d = sid) (update_first sid f c)
  = Some (i, School (schoolId d) (fields d) (f (students d))).
Proof.
  intros Hfind. rewrite (update_first_Some sid f c i d Hfind).
  apply list_find_Some in Hfind as (Hi & Hsid & Hmin).
  apply list_find_Some. split_and!; [|done|].
  - by rewrite list_lookup_alter_eq, Hi.
  - intros i' d' Hd' Hlt. rewrite list_lookup_alter_ne in Hd' by lia.
    by eapply Hmin.
Qed.

Lemma update_first_found sid f c d :
  findOne sid c = Some d →
  findOne sid (update_first sid f c)
  = Some (School (schoolId d) (fields d) (f (students d))).
Proof.
  unfold findOne. intros ([i d0] & Hfind & ->)%fmap_Some.
  by rewrite (list_find_update_first sid f c i d0 Hfind).
Qed.

Lemma update_first_twice sid f c :
  (∀ l, f (f l) = f l) →
  update_first sid f (update_first sid f c) = update_first sid f c.
Proof.
  intros Hf.
  destruct (list_find (λ d, schoolId d = sid) c) as [[i d]|] eqn:Hfind.
  2:{ by rewrite !(update_first_None sid f c Hfind). }
  rewrite (update_first_Some _ _ _ _ _ (list_find_update_first _ f _ _ _ Hfind)).
  rewrite (update_first_Some sid f c i d Hfind).
  rewrite list_alter_alter_eq. apply list_alter_ext; [|done].
  intros d0 _. simpl. by rewrite Hf.
Qed.

Lemma filter_none {A} (P : A → Prop) `{!∀ x, Decision (P x)} (l : list A) :
  Forall (λ x, ¬ P x) l → filter P l = [].
Proof.
  induction 1 as [|x l Hx _ IH]; [done|]. by rewrite filter_cons_False.
Qed.

Lemma concat_students_twice patch l :
  concat_students patch (concat_students patch l) = concat_students patch l.
Proof.
  unfold concat_students. rewrite filter_app. f_equal.
  rewrite (list_filter_filter_l _ _ l) by done.
  rewrite (filter_none _ patch); [by rewrite app_nil_r|].
  apply Forall_forall. intros e He Hno. apply Hno.
  by apply list_elem_of_fmap_2.
Qed.

(** X11. "Filter and concat" is idempotent on literal bodies: the same body
    put a second time leaves the collection as the first left it. *)
Theorem put_concat_idempotent sid patch c :
  literal_body patch →
  (put_concat sid patch (put_concat sid patch c).1).1
  = (put_concat sid patch c).1.
Proof.
  intros _. simpl. apply update_first_twice. apply concat_students_twice.
Qed.

Example literal_strings :
  dollar "$city" = true ∧ dollar "city" = false ∧
  dotted "a.b" = true ∧ dotted "name" = false ∧
  ¬ literal_body [named "s0" "$$NOW"] ∧ ¬ literal_body [named "$schoolId" "Z"].
Proof.
  split_and!; try reflexivity;
    apply (bool_decide_unpack _); by vm_compute.
Qed.

Example example_patch_literal : literal_body example_patch.
Proof. apply (bool_decide_unpack _). by vm_compute. Qed.

Lemma put_concat_idempotent_witness :
  literal_body example_patch ∧
  (put_concat "1" example_patch
     (put_concat "1" example_patch [example_school]).1).1
  = (put_concat "1" example_patch [example_school]).1.
Proof.
  split; [exact example_patch_literal|].
  exact (put_concat_idempotent "1" example_patch [example_school]
           example_patch_literal).
Defined.

Lemma keys_patched patch (l : list student) :
  studentId <$> (patched patch <$> l) = studentId <$> l.
Proof.
  rewrite <-list_fmap_compose. apply list_fmap_ext.
  intros _ s _. apply patched_key.
Qed.

(** The students "filter and concat" leaves are those the loop of
    [src/index.js] leaves, and the entries that match no child. *)
Lemma concat_students_patched patch l :
  NoDup (studentId <$> l) → NoDup (studentId <$> patch) →
  concat_students patch l
  ≡ₚ (patched patch <$> l) ++ filter (λ e, studentId e ∉ studentId <$> l) patch.
Proof.
  intros Hl Hp. unfold concat_students.
  pose proof (NoDup_fmap_1 _ _ Hl) as Hl'.
  pose proof (NoDup_fmap_1 _ _ Hp) as Hp'.
  apply NoDup_Permutation.
  - apply NoDup_app. split_and!; [by apply NoDup_filter| |done].
    intros x [Hx _]%list_elem_of_filter Hin. apply Hx.
    by apply list_elem_of_fmap_2.
  - apply NoDup_app. split_and!; [| |by apply NoDup_filter].
    + eapply (NoDup_fmap_1 studentId). by rewrite keys_patched.
    + intros x (s & -> & Hs)%list_elem_of_fmap [Hx _]%list_elem_of_filter.
      apply Hx. rewrite patched_key. by apply list_elem_of_fmap_2.
  - intros x. rewrite !elem_of_app, !list_elem_of_filter. split.
    + intros [[Hx Hin]|Hin].
      * left. apply list_elem_of_fmap. exists x. split; [|done]. symmetry.
        destruct (patched_cases patch x) as [[? _]|[Hp1 Hp2]]; [done|].
        destruct Hx. rewrite <-Hp2. by apply list_elem_of_fmap_2.
      * destruct (decide (studentId x ∈ studentId <$> l)) as [Hk|Hk];
          [|by right].
        left. apply list_elem_of_fmap in Hk as (s & Hk & Hs).
        apply list_elem_of_fmap. exists s. split; [|done].
        symmetry. by apply patched_unique.
    + intros [(s & -> & Hs)%list_elem_of_fmap|[_ Hin]]; [|by right].
      destruct (patched_cases patch s) as [[-> Hno]|[Hp1 _]]; [by left|by right].
Qed.

(** X12. "Filter and concat" against the loop of [src/index.js], for a
    literal body and a stored school with pairwise distinct children keys and a body with
    pairwise distinct keys: what a GET returns after the one is, up to the
    order of the students, what it returns after the other (applied in issue
    order) together with the entries that match no child, which "filter and
    concat" stores and the loop drops. *)
Theorem concat_vs_loop c sid patch d :
  literal_body patch →
  findOne sid c = Some d →
  NoDup (keys d) → NoDup (studentId <$> patch) →
  ∃ l1 l2,
    get sid (Server (put_concat sid patch c).1 []) = Sent (Students l1) ∧
    get sid (Server (apply_in_order sid patch c) []) = Sent (Students l2) ∧
    l1 ≡ₚ l2 ++ filter (λ e, studentId e ∉ keys d) patch.
Proof.
  intros _ Hf Hd Hp.
  exists (concat_students patch (students d)), (patched patch <$> students d).
  split_and!.
  - unfold get. simpl.
    by rewrite (update_first_found sid (concat_students patch) c d Hf).
  - by apply get_in_order.
  - by apply concat_students_patched.
Qed.

Lemma concat_vs_loop_witness :
  literal_body example_patch ∧
  findOne "1" [example_school] = Some example_school ∧
  NoDup (keys example_school) ∧ NoDup (studentId <$> example_patch) ∧
  ∃ l1 l2,
    get "1" (Server (put_concat "1" example_patch [example_school]).1 [])
    = Sent (Students l1) ∧
    get "1" (Server (apply_in_order "1" example_patch [example_school]) [])
    = Sent (Students l2) ∧
    l1 ≡ₚ l2 ++ filter (λ e, studentId e ∉ keys example_school) example_patch.
Proof.
  assert (NoDup (keys example_school)) as Hd
    by (apply (bool_decide_unpack _); by vm_compute).
  assert (NoDup (studentId <$> example_patch)) as Hp
    by (apply (bool_decide_unpack _); by vm_compute).
  split; [exact example_patch_literal|].
  split; [reflexivity|]. split; [exact Hd|]. split; [exact Hp|].
  exact (concat_vs_loop [example_school] "1" example_patch example_school
           example_patch_literal eq_refl Hd Hp).
Defined.

(** ** $mergeObjects *)

Lemma merge_student_key patch s :
  studentId (merge_student patch s) = studentId s.
Proof.
  unfold merge_student.
  destruct (list_find _ patch) as [[n u]|] eqn:Hu; [|done].
  by apply list_find_Some in Hu as (_ & ? & _).
Qed.




Lemma merge_student_patched patch s :
  NoDup (studentId <$> patch) →
  (∀ e f, e ∈ patch → studentId e = studentId s →
          is_Some (attrs s !! f) → is_Some (attrs e !! f)) →
  merge_student patch s = patched patch s.
Proof.
  intros Hnd Hfull. unfold merge_student.
  destruct (list_find _ patch) as [[n u]|] eqn:Hu.
  - apply list_find_Some in Hu as (Hn & Hk & _).
    assert (u ∈ patch) as Hin by (by eapply list_elem_of_lookup_2).
    rewrite (patched_unique patch s u) by done.
    destruct u as [k a]. simpl in *. f_equal.
    apply map_eq. intros f. rewrite lookup_union.
    destruct (a !! f) as [x|] eqn:Ha, (attrs s !! f) as [y|] eqn:Hs;
      simpl; try done.
    destruct (Hfull (Student k a) f) as [z Hz]; [done..| |].
    + by rewrite Hs.
    + simpl in Hz. congruence.
  - apply list_find_None in Hu.
    destruct (patched_cases patch s) as [[-> _]|[Hin Hk]]; [done|].
    eapply Forall_forall in Hu; [|exact Hin]. done.
Qed.

(** X14. "$mergeObjects" against the loop of [src/index.js], students
    compared as maps from field names to values: for a literal body, a
    stored school with pairwise distinct children keys and a body with pairwise
    distinct keys whose entries name every attribute of the child they
    match, a GET returns the same after the one as after the other applied
    in issue order. *)
Theorem merge_vs_loop c sid patch d :
  literal_body patch →
  findOne sid c = Some d →
  NoDup (keys d) → NoDup (studentId <$> patch) →
  (∀ s e f, s ∈ students d → e ∈ patch → studentId e = studentId s →
            is_Some (attrs s !! f) → is_Some (attrs e !! f)) →
  get sid (Server (put_merge sid patch c).1 [])
  = get sid (Server (apply_in_order sid patch c) []).
Proof.
  intros _ Hf Hd Hp Hfull.
  rewrite (get_in_order c sid patch d) by done.
  unfold get. simpl.
  rewrite (update_first_found sid (fmap (merge_student patch)) c d Hf).
  simpl. do 2 f_equal. apply list_fmap_ext. intros j s Hs.
  apply merge_student_patched; [done|].
  intros e f. apply Hfull. by eapply list_elem_of_lookup_2.
Qed.

Lemma merge_vs_loop_witness :
  let patch := [named "s0" "A2"; named "sX" "Z"] in
  literal_body patch ∧
  findOne "1" [example_school] = Some example_school ∧
  NoDup (keys example_school) ∧ NoDup (studentId <$> patch) ∧
  get "1" (Server (put_merge "1" patch [example_school]).1 [])
  = get "1" (Server (apply_in_order "1" patch [example_school]) []).
Proof.
  intros patch.
  assert (NoDup (keys example_school)) as Hd
    by (apply (bool_decide_unpack _); by vm_compute).
  assert (NoDup (studentId <$> patch)) as Hp
    by (apply (bool_decide_unpack _); by vm_compute).
  split; [exact example_patch_literal|].
  split; [reflexivity|]. split; [exact Hd|]. split; [exact Hp|].
  apply (merge_vs_loop [example_school] "1" patch example_school
           example_patch_literal eq_refl Hd Hp).
  intros s e f Hs He Hk [x Hx].
  apply elem_of_cons in Hs as [->|Hs];
    [|apply list_elem_of_singleton in Hs as ->];
    (apply elem_of_cons in He as [->|He];
      [|apply list_elem_of_singleton in He as ->]);
    try discriminate Hk;
    simpl in *;
    (destruct (decide (f = "name")) as [->|Hne];
      [by eexists|by rewrite lookup_singleton_ne in Hx]).
Defined.

Lemma merge_student_twice patch s :
  merge_student patch (merge_student patch s) = merge_student patch s.
Proof.
  pose proof (merge_student_key patch s) as Hk.
  unfold merge_student in *.
  destruct (list_find (λ u, studentId u = studentId s) patch)
    as [[n u]|] eqn:Hu.
  - simpl in *. rewrite Hk, Hu. f_equal; [done|].
    by rewrite (assoc_L (∪)), (idemp_L (∪)).
  - by rewrite Hu.
Qed.

(** X15. "$mergeObjects" is idempotent on literal bodies: the same body put
    a second time leaves the collection as the first left it. *)
Theorem put_merge_idempotent sid patch c :
  literal_body patch →
  (put_merge sid patch (put_merge sid patch c).1).1
  = (put_merge sid patch c).1.
Proof.
  intros _. simpl. apply update_first_twice. intros l.
  rewrite <-list_fmap_compose. apply list_fmap_ext.
  intros _ s _. apply merge_student_twice.
Qed.

Lemma put_merge_idempotent_witness :
  let patch := [Student "s0" {[ "age" := Num 21 ]}] in
  literal_body patch ∧
  (put_merge "1" patch (put_merge "1" patch [example_school]).1).1
  = (put_merge "1" patch [example_school]).1.
Proof.
  intros patch.
  assert (literal_body patch) as Hlit
    by (apply (bool_decide_unpack _); by vm_compute).
  split; [exact Hlit|].
  exact (put_merge_idempotent "1" patch [example_school] Hlit).
Defined.

(** ** The awaited for-loop *)

Lemma list_find_on {A} (P Q : A → Prop)
    `{!∀ x, Decision (P x), !∀ x, Decision (Q x)} (l : list A) :
  Forall (λ x, P x ↔ Q x) l → list_find P l = list_find Q l.
Proof.
  induction 1 as [|x l Hx _ IH]; [done|]. simpl.
  rewrite (decide_ext (P x) (Q x)) by done. by rewrite IH.
Qed.

Lemma target_any_one_id sid k c :
  Forall (λ d, schoolId d = sid) c → target_any k c = target sid k c.
Proof.
  intros Hc. unfold target_any, target.
  rewrite (list_find_on (has_student k) (selects sid k)); [done|].
  eapply Forall_impl; [exact Hc|]. intros d Hd. unfold selects. tauto.
Qed.

Lemma one_id_same_shape sid c c' :
  shape c = shape c' →
  Forall (λ d, schoolId d = sid) c → Forall (λ d, schoolId d = sid) c'.
Proof.
  intros Hsh Hc. apply Forall_forall. intros d' Hd'.
  apply list_elem_of_lookup in Hd' as [i Hi].
  destruct (shape_lookup c' c i d') as (d & Hd & Ho); [done..|].
  unfold outline in Ho. injection Ho as Hsid _ _. rewrite <-Hsid.
  eapply Forall_forall in Hc; [done|]. by eapply list_elem_of_lookup_2.
Qed.

(** X16. On a collection whose schools all have the requested id (the
    seeded collection is one), the awaited for-loop of the article, whose
    filter does not name the school, leaves what the loop of [src/index.js]
    leaves when its updates are applied in issue order. *)
Theorem for_loop_vs_loop sid patch c :
  Forall (λ d, schoolId d = sid) c →
  (put_for_loop patch c).1 = apply_in_order sid patch c.
Proof.
  unfold put_for_loop, apply_in_order, drain, issue. simpl.
  rewrite foldl_fmap.
  revert c. induction patch as [|e patch IH]; intros c Hc; [done|]. simpl.
  assert (update_by_key (studentId e) e c = updateOne sid (studentId e) e c)
    as ->.
  { unfold update_by_key, updateOne. by rewrite (target_any_one_id sid). }
  apply IH. eapply one_id_same_shape; [|exact Hc].
  symmetry. apply updateOne_shape.
Qed.

Lemma for_loop_vs_loop_witness :
  Forall (λ d, schoolId d = "1") [example_school] ∧
  (put_for_loop example_patch [example_school]).1
  = apply_in_order "1" example_patch [example_school].
Proof.
  assert (Forall (λ d, schoolId d = "1") [example_school]) as Hc
    by (by repeat constructor).
  split; [exact Hc|].
  exact (for_loop_vs_loop "1" example_patch [example_school] Hc).
Defined.

(** The filter of the for-loop does not name the school: an entry can land
    in a school the request does not address. *)
Example for_loop_other_school :
  let c := [School "2" ∅ [named "s0" "A"]; School "1" ∅ [named "s0" "B"]] in
  (put_for_loop [named "s0" "C"] c).1
  = [School "2" ∅ [named "s0" "C"]; School "1" ∅ [named "s0" "B"]] ∧
  apply_in_order "1" [named "s0" "C"] c
  = [School "2" ∅ [named "s0" "A"]; School "1" ∅ [named "s0" "C"]].
Proof. split; vm_compute; reflexivity. Qed.
